(** * Raja Repair Cirebon: the local-storage data layer and its stock ledger

    A shallow embedding of [src/lib/storage.ts] (the user, session,
    category, product and transaction functions, the two private stock
    routines and the rows of the CSV export and import), of the
    stock-sufficiency check [canProcessTransaction], of the handlers of the
    transaction form, the transaction details view and the profile page, and
    of the low stock alert, followed by the properties proved about them.

    Conventions of the embedding.
    - JavaScript numbers that hold prices, stock levels and quantities are
      the integers among the doubles ([Z]); the arithmetic of the source
      ([+=], [-=], [+], [*]) rounds as that of doubles does, see [Number].
    - Every collection lives in [localStorage] as a JSON string: a read
      ([getFromStorage]) yields a fresh copy and an absent key reads as the
      empty array, so a collection is a [list] and no aliasing exists between
      two reads.
    - The host clock ([new Date().toISOString()]) and the id generator
      ([generateId], built on [Date.now] and [Math.random]) are oracles: the
      [k]-th read of the host returns [clock k], respectively [idgen k].
    - [ledger] is a history variable: it records every run of one of the two
      stock routines that gets past its status guard.  No function reads it. *)

From Stdlib Require Import ZArith Lia.
From stdpp Require Import base decidable option list strings sorting.

Local Open Scope Z_scope.

(** ** Data model ([src/lib/types.ts])

    Every entity of the source has a field [id]; record fields share one
    name space here, so the four are [userId_], [categoryId_], [productId_]
    and [transactionId] (the references keep their source names:
    [categoryId] of a product, [productId] of an item, [userId] of a
    transaction).  Likewise for [name], [type], [createdAt] and
    [updatedAt].  [vipPrice] of a product and [trackingNumber] of a
    transaction are read and written by the components. *)

Definition Timestamp := string.

Inductive UserRole := admin | user.
Inductive UserType := regular | vip.

Record User := mkUser {
  userId_ : string;
  username : string;
  password : string;
  role : UserRole;
  userType : UserType;
  userName : string;
  email : option string;
  phone : option string;
  address : option string;
  csCode : option string;
  userCreatedAt : Timestamp
}.

Record ProductCategory := mkCategory {
  categoryId_ : string;
  categoryName : string;
  description : option string;
  categoryCreatedAt : Timestamp;
  categoryUpdatedAt : Timestamp
}.

Record Product := mkProduct {
  productId_ : string;
  code : string;
  productName : string;
  categoryId : string;
  price : Z;
  vipPrice : option Z;
  stock : Z;
  productCreatedAt : Timestamp;
  productUpdatedAt : Timestamp
}.

Inductive TransactionType := type_in | type_out.

Record TransactionItem := mkItem {
  productId : string;
  quantity : Z;
  priceAtTransaction : Z
}.

Inductive TransactionStatus :=
  | pending
  | payment_confirmed
  | processing
  | ready_for_pickup
  | shipping
  | completed
  | cancelled.

Record Transaction := mkTransaction {
  transactionId : string;
  type : TransactionType;
  items : list TransactionItem;
  totalAmount : Z;
  userId : string;
  status : TransactionStatus;
  notes : option string;
  deliveryMethodId : option string;
  deliveryAddress : option string;
  paymentMethodId : option string;
  paymentProof : option string;
  trackingNumber : option string;
  createdAt : Timestamp;
  updatedAt : Timestamp
}.

Record AppSettings := mkSettings {
  storeName : string;
  storeAddress : option string;
  storePhone : option string;
  storeLogo : option string;
  storeEmail : option string;
  taxRate : option Z
}.

Global Instance UserRole_eq_dec : EqDecision UserRole.
Proof. solve_decision. Defined.
Global Instance UserType_eq_dec : EqDecision UserType.
Proof. solve_decision. Defined.
Global Instance TransactionType_eq_dec : EqDecision TransactionType.
Proof. solve_decision. Defined.
Global Instance TransactionStatus_eq_dec : EqDecision TransactionStatus.
Proof. solve_decision. Defined.

(** Field updates ([{...x, f: v}] and [x.f = v]). *)

Definition setStock (s : Z) (p : Product) : Product :=
  mkProduct (productId_ p) (code p) (productName p) (categoryId p) (price p)
            (vipPrice p) s (productCreatedAt p) (productUpdatedAt p).

Definition setProductUpdatedAt (now : Timestamp) (p : Product) : Product :=
  mkProduct (productId_ p) (code p) (productName p) (categoryId p) (price p)
            (vipPrice p) (stock p) (productCreatedAt p) now.

Definition setStatus (st : TransactionStatus) (now : Timestamp)
    (t : Transaction) : Transaction :=
  mkTransaction (transactionId t) (type t) (items t) (totalAmount t) (userId t)
                st (notes t) (deliveryMethodId t) (deliveryAddress t)
                (paymentMethodId t) (paymentProof t) (trackingNumber t)
                (createdAt t) now.

(** ** Numbers

    A JavaScript number is an IEEE 754 double.  An integer of at most 53
    significant bits is a double, and the sum, the difference and the
    product of two doubles are the exact result rounded to the nearest
    double, a result halfway between two doubles to the one whose last bit
    is 0.  On integers this is [roundToDouble] of the exact result.  Numbers
    with a fraction have no counterpart here, nor have the infinities, which
    results of a magnitude from 2^1024 on round to; an integer that is no
    double stands for no number of the source. *)

Module Number.

(** [Number.MAX_SAFE_INTEGER] *)
Definition MAX_SAFE_INTEGER : Z := 2 ^ 53 - 1.

Definition roundToDouble (z : Z) : Z :=
  if bool_decide (Z.abs z ≤ MAX_SAFE_INTEGER) then z
  else
    (* the distance between two doubles of this magnitude *)
    let ulp := 2 ^ (Z.log2 (Z.abs z) - 52) in
    let kept := Z.abs z / ulp in
    let rest := Z.abs z mod ulp in
    let significand :=
      if bool_decide (2 * rest < ulp) then kept
      else if bool_decide (ulp < 2 * rest) then kept + 1
      else if Z.even kept then kept else kept + 1 in
    Z.sgn z * (significand * ulp).

Definition add (a b : Z) : Z := roundToDouble (a + b).
Definition sub (a b : Z) : Z := roundToDouble (a - b).
Definition mul (a b : Z) : Z := roundToDouble (a * b).

End Number.

(** ** The store and the host *)

(** The six keys of [STORAGE_KEYS]. *)
Record Storage := mkStorage {
  USERS : list User;
  PRODUCT_CATEGORIES : list ProductCategory;
  PRODUCTS : list Product;
  TRANSACTIONS : list Transaction;
  SETTINGS : option AppSettings;
  CURRENT_USER : option User
}.

(** A run of [updateStockFromTransaction], respectively of
    [reverseTransactionStockEffects], for the transaction [t]. *)
Inductive LedgerCall :=
  | Applied (t : Transaction)
  | Reversed (t : Transaction).

(** The store, the number of reads of the host made so far, and the history
    of the ledger. *)
Record World := mkWorld {
  storage : Storage;
  hostReads : nat;
  ledger : list LedgerCall
}.

(** The functions of the data layer read and write the world. *)
Definition M (A : Type) : Type := World → A * World.

Global Instance M_ret : MRet M := λ A a w, (a, w).
Global Instance M_bind : MBind M :=
  λ A B k m w, let (a, w') := m w in k a w'.

Definition result {A} (m : M A) (w : World) : A := fst (m w).
Definition after {A} (m : M A) (w : World) : World := snd (m w).

Definition products (w : World) : list Product := PRODUCTS (storage w).
Definition transactions (w : World) : list Transaction :=
  TRANSACTIONS (storage w).
Definition categories (w : World) : list ProductCategory :=
  PRODUCT_CATEGORIES (storage w).

(** [setToStorage(key, data)] replaces one key. *)
Definition withProducts (l : list Product) (s : Storage) : Storage :=
  mkStorage (USERS s) (PRODUCT_CATEGORIES s) l (TRANSACTIONS s) (SETTINGS s)
            (CURRENT_USER s).
Definition withCategories (l : list ProductCategory) (s : Storage) : Storage :=
  mkStorage (USERS s) l (PRODUCTS s) (TRANSACTIONS s) (SETTINGS s)
            (CURRENT_USER s).
Definition withTransactions (l : list Transaction) (s : Storage) : Storage :=
  mkStorage (USERS s) (PRODUCT_CATEGORIES s) (PRODUCTS s) l (SETTINGS s)
            (CURRENT_USER s).

Definition writeStorage (f : Storage → Storage) : M unit :=
  λ w, (tt, mkWorld (f (storage w)) (hostReads w) (ledger w)).

(** Appends to the history; it stands for no statement of the source. *)
Definition record (c : LedgerCall) : M unit :=
  λ w, (tt, mkWorld (storage w) (hostReads w) (ledger w ++ [c])).

(** [Array.prototype.findIndex] ([None] for [-1]) and [Array.prototype.find]. *)
Definition findIndex {A} (P : A → Prop) `{∀ x, Decision (P x)}
    (l : list A) : option nat := fst <$> list_find P l.
Definition find {A} (P : A → Prop) `{∀ x, Decision (P x)}
    (l : list A) : option A := snd <$> list_find P l.

(** [Array.prototype.forEach] with a body that updates a local variable. *)
Fixpoint forEach {A S} (body : S → A → M S) (l : list A) (s : S) : M S :=
  match l with
  | [] => mret s
  | x :: l' => s' ← body s x; forEach body l' s'
  end.

Section Storage.

(** The host: the [k]-th read returns this timestamp, respectively this id. *)
Variable clock : nat → Timestamp.
Variable idgen : nat → string.

Definition hostRead {A} (oracle : nat → A) : M A :=
  λ w, (oracle (hostReads w),
        mkWorld (storage w) (S (hostReads w)) (ledger w)).

(** [new Date().toISOString()] *)
Definition newDate : M Timestamp := hostRead clock.
(** [generateId()] *)
Definition generateId : M string := hostRead idgen.

(** *** Categories and products *)

Definition getProducts : M (list Product) := λ w, (products w, w).
Definition getCategories : M (list ProductCategory) :=
  λ w, (categories w, w).
Definition getTransactions : M (list Transaction) :=
  λ w, (transactions w, w).
Definition getCurrentUser : M (option User) :=
  λ w, (CURRENT_USER (storage w), w).

Definition setProducts (l : list Product) : M unit :=
  writeStorage (withProducts l).
Definition setCategories (l : list ProductCategory) : M unit :=
  writeStorage (withCategories l).
Definition setTransactions (l : list Transaction) : M unit :=
  writeStorage (withTransactions l).

Definition addCategory (category : ProductCategory) : M unit :=
  cats ← getCategories;
  setCategories (cats ++ [category]).

Definition deleteCategory (cid : string) : M bool :=
  prods ← getProducts;
  let categoryUsed := bool_decide (Exists (λ p, categoryId p = cid) prods) in
  if categoryUsed then mret false
  else
    cats ← getCategories;
    let filteredCategories := filter (λ c, categoryId_ c ≠ cid) cats in
    if bool_decide (length filteredCategories ≠ length cats)
    then setCategories filteredCategories ;; mret true
    else mret false.

Definition addProduct (product : Product) : M unit :=
  prods ← getProducts;
  setProducts (prods ++ [product]).

Definition updateProduct (updatedProduct : Product) : M bool :=
  prods ← getProducts;
  match findIndex (λ p, productId_ p = productId_ updatedProduct) prods with
  | Some index =>
      setProducts (<[index := updatedProduct]> prods) ;; mret true
  | None => mret false
  end.

Definition deleteProduct (pid : string) : M bool :=
  prods ← getProducts;
  let filteredProducts := filter (λ p, productId_ p ≠ pid) prods in
  if bool_decide (length filteredProducts ≠ length prods)
  then setProducts filteredProducts ;; mret true
  else mret false.

(** *** Transactions and the stock ledger *)

(** The body of the [forEach] of [updateStockFromTransaction]. *)
Definition updateStockItem (ty : TransactionType) (prods : list Product)
    (item : TransactionItem) : M (list Product) :=
  match findIndex (λ p, productId_ p = productId item) prods with
  | Some productIndex =>
      let prods' :=
        match ty with
        | type_in =>
            alter (λ p, setStock (Number.add (stock p) (quantity item)) p)
                  productIndex prods
        | type_out =>
            alter (λ p, let p' :=
                          setStock (Number.sub (stock p) (quantity item)) p in
                        (* Ensure stock doesn't go negative *)
                        if bool_decide (stock p' < 0) then setStock 0 p'
                        else p')
                  productIndex prods
        end in
      now ← newDate;
      mret (alter (setProductUpdatedAt now) productIndex prods')
  | None => mret prods
  end.

Definition updateStockFromTransaction (transaction : Transaction) : M unit :=
  if bool_decide (status transaction ≠ completed) then mret tt
  else
    record (Applied transaction) ;;
    prods ← getProducts;
    prods' ← forEach (updateStockItem (type transaction))
                     (items transaction) prods;
    setProducts prods'.

(** The body of the [forEach] of [reverseTransactionStockEffects]. *)
Definition reverseStockItem (ty : TransactionType) (prods : list Product)
    (item : TransactionItem) : M (list Product) :=
  match findIndex (λ p, productId_ p = productId item) prods with
  | Some productIndex =>
      let prods' :=
        match ty with
        | type_in =>
            alter (λ p, let p' :=
                          setStock (Number.sub (stock p) (quantity item)) p in
                        (* Ensure stock doesn't go negative *)
                        if bool_decide (stock p' < 0) then setStock 0 p'
                        else p')
                  productIndex prods
        | type_out =>
            alter (λ p, setStock (Number.add (stock p) (quantity item)) p)
                  productIndex prods
        end in
      now ← newDate;
      mret (alter (setProductUpdatedAt now) productIndex prods')
  | None => mret prods
  end.

Definition reverseTransactionStockEffects (transaction : Transaction)
    : M unit :=
  if bool_decide (status transaction ≠ completed) then mret tt
  else
    record (Reversed transaction) ;;
    prods ← getProducts;
    prods' ← forEach (reverseStockItem (type transaction))
                     (items transaction) prods;
    setProducts prods'.

Definition addTransaction (transaction : Transaction) : M unit :=
  txs ← getTransactions;
  setTransactions (txs ++ [transaction]) ;;
  (* Only update product stock if transaction status is 'completed' *)
  if bool_decide (status transaction = completed)
  then updateStockFromTransaction transaction
  else mret tt.

Definition updateTransaction (updatedTransaction : Transaction) : M bool :=
  txs ← getTransactions;
  (* [list_find] yields the index of [findIndex] together with
     [transactions[index]] *)
  match list_find (λ t, transactionId t = transactionId updatedTransaction)
                  txs with
  | Some (index, oldTransaction) =>
      (if bool_decide (status oldTransaction ≠ completed)
          && bool_decide (status updatedTransaction = completed)
       then updateStockFromTransaction updatedTransaction
       else if bool_decide (status oldTransaction = completed)
               && bool_decide (status updatedTransaction ≠ completed)
       then reverseTransactionStockEffects oldTransaction
       else mret tt) ;;
      setTransactions (<[index := updatedTransaction]> txs) ;;
      mret true
  | None => mret false
  end.

Definition updateTransactionStatus (tid : string) (st : TransactionStatus)
    : M bool :=
  txs ← getTransactions;
  match list_find (λ t, transactionId t = tid) txs with
  | Some (index, current) =>
      now ← newDate;
      updateTransaction (setStatus st now current)
  | None => mret false
  end.

(** *** Stock sufficiency *)

(** The [for ... of] loop of [canProcessTransaction], with its early
    [return false]. *)
Fixpoint sufficientStock (prods : list Product)
    (its : list TransactionItem) : bool :=
  match its with
  | [] => true
  | item :: rest =>
      match find (λ p, productId_ p = productId item) prods with
      | None => false
      | Some product =>
          if bool_decide (stock product < quantity item) then false
          else sufficientStock prods rest
      end
  end.

Definition canProcessTransaction (transaction : Transaction) : M bool :=
  match type transaction with
  | type_out =>
      prods ← getProducts;
      mret (sufficientStock prods (items transaction))
  | type_in => mret true
  end.

End Storage.

(** ** The transaction form ([TransactionForm], its submit handler) *)

Module TransactionForm.

Record FormItem := mkFormItem {
  itemProductId : string;
  itemQuantity : Z
}.

Record FormValues := mkFormValues {
  formNotes : option string;
  formDeliveryMethodId : option string;
  formDeliveryAddress : option string;
  formPaymentMethodId : option string;
  formPaymentProof : option string;
  formItems : list FormItem
}.

(** The toast that [onSubmit] shows. *)
Inductive Toast :=
  | AuthenticationError
  | InsufficientStock
  | Submitted.

Section Form.

Variable clock : nat → Timestamp.
Variable idgen : nat → string.
(** Component state: the product list loaded when the form mounted, and
    the cost of the chosen delivery method. *)
Variable formProducts : list Product.
Variable deliveryCost : Z.

(** [product?.price || 0] *)
Definition priceOrZero (product : option Product) : Z :=
  match product with
  | Some p => if bool_decide (price p = 0) then 0 else price p
  | None => 0
  end.

(** [items.reduce((total, item) => total + price * item.quantity, 0)] *)
Definition calculateTotal (its : list TransactionItem) : Z :=
  foldl (λ total item,
           Number.add total
             (Number.mul
                (priceOrZero
                   (find (λ p, productId_ p = productId item) formProducts))
                (quantity item)))
        0 its.

Definition transactionItems (values : FormValues) : list TransactionItem :=
  (λ item,
     mkItem (itemProductId item) (itemQuantity item)
            (priceOrZero
               (find (λ p, productId_ p = itemProductId item)
                     formProducts)))
  <$> formItems values.

Definition onSubmit (ty : TransactionType) (values : FormValues)
    : M Toast :=
  currentUser ← getCurrentUser;
  match currentUser with
  | None => mret AuthenticationError
  | Some currentUser =>
      let its := transactionItems values in
      let subtotal := calculateTotal its in
      let total :=
        match ty with
        | type_out => Number.add subtotal deliveryCost
        | type_in => subtotal
        end in
      newId ← generateId idgen;
      created ← newDate clock;
      updated ← newDate clock;
      let newTransaction :=
        mkTransaction newId ty its total (userId_ currentUser)
          (* Incoming products are completed, orders start as pending *)
          (match ty with type_in => completed | type_out => pending end)
          (formNotes values) (formDeliveryMethodId values)
          (formDeliveryAddress values) (formPaymentMethodId values)
          (formPaymentProof values) None created updated in
      (* Validate stock for outgoing transactions *)
      rejected ← match ty with
                 | type_out =>
                     processable ← canProcessTransaction newTransaction;
                     mret (negb processable)
                 | type_in => mret false
                 end;
      if (rejected : bool) then mret InsufficientStock
      else addTransaction clock newTransaction ;; mret Submitted
  end.

End Form.

End TransactionForm.

(** ** The transaction details view (its action predicates) *)

Module TransactionDetails.

Inductive Action :=
  | ConfirmPayment
  | Process
  | MarkAsReady
  | MarkAsShipping
  | Complete
  | Cancel.

Section View.

(** Props and component state: the transaction shown, the signed-in user
    and whether [deliveryMethodName.toLowerCase().includes('pick')]. *)
Variable transaction : Transaction.
Variable currentUser : option User.
Variable namedPickup : bool.

Definition isAdmin : bool :=
  match currentUser with
  | Some u => bool_decide (role u = admin)
  | None => false
  end.

Definition isOwner : bool :=
  match currentUser with
  | Some u => bool_decide (userId_ u = userId transaction)
  | None => false
  end.

Definition canConfirmPayment : bool :=
  bool_decide (type transaction = type_out)
  && bool_decide (status transaction = pending)
  && isOwner.

Definition canProcessTransaction : bool :=
  bool_decide (type transaction = type_out)
  && bool_decide (status transaction = payment_confirmed)
  && isAdmin.

Definition canMarkAsReady : bool :=
  bool_decide (type transaction = type_out)
  && bool_decide (status transaction = processing)
  && isAdmin && namedPickup.

Definition canMarkAsShipping : bool :=
  bool_decide (type transaction = type_out)
  && bool_decide (status transaction = processing)
  && isAdmin && negb namedPickup.

Definition canCompleteTransaction : bool :=
  bool_decide (type transaction = type_out)
  && (bool_decide (status transaction = ready_for_pickup)
      || bool_decide (status transaction = shipping))
  && isAdmin.

Definition canCancelTransaction : bool :=
  (bool_decide (status transaction = pending)
   || bool_decide (status transaction = payment_confirmed)
   || bool_decide (status transaction = processing))
  && (isAdmin || isOwner).

(** An action's button is rendered only under its predicate ... *)
Definition offered (a : Action) : bool :=
  match a with
  | ConfirmPayment => canConfirmPayment
  | Process => canProcessTransaction
  | MarkAsReady => canMarkAsReady
  | MarkAsShipping => canMarkAsShipping
  | Complete => canCompleteTransaction
  | Cancel => canCancelTransaction
  end.

(** ... and requests this status ([handleStatusChange], and the submit
    handler of the shipping dialog). *)
Definition target (a : Action) : TransactionStatus :=
  match a with
  | ConfirmPayment => payment_confirmed
  | Process => processing
  | MarkAsReady => ready_for_pickup
  | MarkAsShipping => shipping
  | Complete => completed
  | Cancel => cancelled
  end.

End View.

End TransactionDetails.

(** ** Definitions that follow the specification *)

(** The outbound lifecycle of the specification (section 4.2): the legal
    successors of each of the seven states. *)
Definition spec_legal_successor (from to : TransactionStatus) : bool :=
  match from, to with
  | pending, payment_confirmed
  | payment_confirmed, processing
  | processing, ready_for_pickup
  | processing, shipping
  | ready_for_pickup, completed
  | shipping, completed
  | pending, cancelled
  | payment_confirmed, cancelled
  | processing, cancelled => true
  | _, _ => false
  end.

(** The actor that the specification requires on each edge: the owner
    confirms payment, an admin advances the order, either may cancel. *)
Definition spec_actor_allowed (from to : TransactionStatus)
    (owner administrator : bool) : bool :=
  match from, to with
  | pending, payment_confirmed => owner
  | _, cancelled => owner || administrator
  | _, _ => administrator
  end.

(** Modelled from the spec: [getPriceForUser] of [src/lib/storage.ts], imported
    by the product table, the cart drawer and the checkout page, is not among
    the sources.  Section 4.3: it returns [product.vipPrice] if the tier is
    [vip] and [vipPrice] is set, else [product.price]. *)
Definition getPriceForUser (product : Product) (tier : UserType) : Z :=
  match tier, vipPrice product with
  | vip, Some v => v
  | _, _ => price product
  end.

(** [{...transaction, items}] *)
Definition setItems (its : list TransactionItem) (t : Transaction)
    : Transaction :=
  mkTransaction (transactionId t) (type t) its (totalAmount t) (userId t)
                (status t) (notes t) (deliveryMethodId t) (deliveryAddress t)
                (paymentMethodId t) (paymentProof t) (trackingNumber t)
                (createdAt t) (updatedAt t).

(** The items of a transaction whose product is in the stored collection. *)
Definition knownItems (prods : list Product) (its : list TransactionItem)
    : list TransactionItem :=
  filter (λ item,
            is_Some (findIndex (λ p, productId_ p = productId item) prods))
         its.

(** ** The stock arithmetic of the ledger, seen on (id, stock) pairs

    Both stock routines run one of two updates on [products[productIndex]]:
    [stock += quantity], or [stock -= quantity] followed by the reset to 0 of
    a negative result.  The definitions below replay the two loops on the
    list of (id, stock) pairs of the products; [ledger_view] further down
    proves that this is what the routines compute. *)

Inductive StockChange := Credit | Debit.

Definition applyChange (ty : TransactionType) : StockChange :=
  match ty with type_in => Credit | type_out => Debit end.
Definition reverseChange (ty : TransactionType) : StockChange :=
  match ty with type_in => Debit | type_out => Credit end.

Definition changeStock (c : StockChange) (s q : Z) : Z :=
  match c with
  | Credit => Number.add s q
  | Debit => if bool_decide (Number.sub s q < 0) then 0 else Number.sub s q
  end.


Abbreviation StockView := (list (string * Z)).

Definition view (prods : list Product) : StockView :=
  (λ p, (productId_ p, stock p)) <$> prods.

Definition viewStep (c : StockChange) (v : StockView)
    (item : TransactionItem) : StockView :=
  match findIndex (λ e, e.1 = productId item) v with
  | Some i => alter (λ e, (e.1, changeStock c e.2 (quantity item))) i v
  | None => v
  end.

Definition viewLoop (c : StockChange) (its : list TransactionItem)
    (v : StockView) : StockView := foldl (viewStep c) v its.


(** The quantities, in item order, of the items whose product is found at
    index [j]. *)
Definition quantitiesAt (v : StockView) (j : nat)
    (its : list TransactionItem) : list Z :=
  quantity <$>
    filter (λ item, findIndex (λ e, e.1 = productId item) v = Some j) its.


Definition sumZ (qs : list Z) : Z := foldr Z.add 0 qs.

(** A run of a stock routine for the items [its] on the products [prods]
    stays among the safe integers: no quantity and no stock is negative, and
    no stock plus the quantities of [its] exceeds
    [Number.MAX_SAFE_INTEGER]. *)
Definition safeRun (prods : list Product) (its : list TransactionItem)
    : Prop :=
  Forall (λ item, 0 ≤ quantity item) its
  ∧ Forall (λ p, 0 ≤ stock p
               ∧ stock p + sumZ (quantity <$> its)
                 ≤ Number.MAX_SAFE_INTEGER) prods.

Global Instance safeRun_dec prods its : Decision (safeRun prods its).
Proof. unfold safeRun. apply _. Defined.

(** ** The history of ledger runs *)

(** Runs of [updateStockFromTransaction] less runs of
    [reverseTransactionStockEffects] recorded for the transaction id [tid]. *)
Fixpoint netApplied (tid : string) (log : list LedgerCall) : Z :=
  match log with
  | [] => 0
  | Applied t :: rest =>
      (if bool_decide (transactionId t = tid) then 1 else 0)
      + netApplied tid rest
  | Reversed t :: rest =>
      (if bool_decide (transactionId t = tid) then -1 else 0)
      + netApplied tid rest
  end.

(** Whether the first stored transaction with id [tid], the one that
    [updateTransaction] and [updateTransactionStatus] address, is completed
    (1) or not, or absent (0). *)
Definition completedNow (tid : string) (w : World) : Z :=
  match find (λ t, transactionId t = tid) (transactions w) with
  | Some t => if bool_decide (status t = completed) then 1 else 0
  | None => 0
  end.

(** The stock effect of every transaction is in force exactly when the
    transaction is completed. *)
Definition ledgerBalanced (w : World) : Prop :=
  ∀ tid, netApplied tid (ledger w) = completedNow tid w.

(** A status update reaches the store through one of two functions. *)
Inductive StatusUpdate :=
  | ViaUpdateTransactionStatus (tid : string) (st : TransactionStatus)
  | ViaUpdateTransaction (updatedTransaction : Transaction).

Definition runUpdate (clock : nat → Timestamp) (op : StatusUpdate) : M bool :=
  match op with
  | ViaUpdateTransactionStatus tid st => updateTransactionStatus clock tid st
  | ViaUpdateTransaction updatedTransaction =>
      updateTransaction clock updatedTransaction
  end.

Definition runUpdates (clock : nat → Timestamp) (ops : list StatusUpdate)
    (w : World) : World :=
  foldl (λ w op, after (runUpdate clock op) w) w ops.

(** What one status update, from the stored record [old] to the record [u],
    does to the ledger and to the products, by the old and the new status:
    the effect of [u] is applied on entering [completed], the effect of [old]
    is reversed on leaving it, and nothing happens otherwise. *)
Definition ledgerStep (old u : Transaction) (w w' : World) : Prop :=
  (status old ≠ completed → status u = completed →
   ledger w' = ledger w ++ [Applied u]
   ∧ view (products w')
     = viewLoop (applyChange (type u)) (items u) (view (products w)))
  ∧ (status old = completed → status u ≠ completed →
     ledger w' = ledger w ++ [Reversed old]
     ∧ view (products w')
       = viewLoop (reverseChange (type old)) (items old) (view (products w)))
  ∧ (status old ≠ completed → status u ≠ completed →
     ledger w' = ledger w ∧ products w' = products w)
  ∧ (status old = completed → status u = completed →
     ledger w' = ledger w ∧ products w' = products w).


(** ** Sample data for the scenarios *)

Module Sample.

Definition epoch : Timestamp := "2024-01-01T00:00:00.000Z".
Definition clock (k : nat) : Timestamp := epoch.
Definition idgen (k : nat) : string := "T1".

Definition theAdmin : User :=
  mkUser "1" "admin" "admin123" admin regular "Administrator"
         (Some "admin@rajarepair.com") None None None epoch.
Definition theUser : User :=
  mkUser "2" "user" "user123" user regular "Test User"
         (Some "user@rajarepair.com") None None None epoch.

Definition C1 : ProductCategory :=
  mkCategory "C1" "Spareparts" (Some "Replacement parts for repairs")
             epoch epoch.

Definition product (pid : string) (s : Z) : Product :=
  mkProduct pid ("code-" +:+ pid) "LCD" "C1" 100 None s epoch epoch.

Definition order (ty : TransactionType) (st : TransactionStatus)
    (its : list TransactionItem) : Transaction :=
  mkTransaction "T1" ty its 0 "2" st None None None None None None
                epoch epoch.

Definition world (prods : list Product) (txs : list Transaction) : World :=
  mkWorld (mkStorage [theAdmin; theUser] [C1] prods txs None (Some theUser))
          0 [].

(** A shop with five pieces of [P1] and no transaction yet, an order for two
    of them, and the updates that take the order through its lifecycle,
    reopen it and complete it again. *)
Definition shop : World := world [product "P1" 5] [].
Definition pendingOrder : Transaction :=
  order type_out pending [mkItem "P1" 2 100].
Definition shippedOrder : Transaction :=
  mkTransaction "T1" type_out [mkItem "P1" 2 100] 0 "2" shipping None None
                None None None (Some "JNE-0001") epoch epoch.
Definition orderedShop : World := world [product "P1" 5] [pendingOrder].
Definition lifecycle : list StatusUpdate :=
  [ViaUpdateTransactionStatus "T1" payment_confirmed;
   ViaUpdateTransactionStatus "T1" processing;
   ViaUpdateTransaction shippedOrder;
   ViaUpdateTransactionStatus "T1" completed;
   ViaUpdateTransactionStatus "T1" processing;
   ViaUpdateTransactionStatus "T1" completed].

End Sample.

(** ** Further functions of the data layer: users, session, categories,
    product import *)

Definition withUsers (l : list User) (s : Storage) : Storage :=
  mkStorage l (PRODUCT_CATEGORIES s) (PRODUCTS s) (TRANSACTIONS s) (SETTINGS s)
            (CURRENT_USER s).
Definition withCurrentUser (u : option User) (s : Storage) : Storage :=
  mkStorage (USERS s) (PRODUCT_CATEGORIES s) (PRODUCTS s) (TRANSACTIONS s)
            (SETTINGS s) u.

Definition users (w : World) : list User := USERS (storage w).
Definition currentUser (w : World) : option User := CURRENT_USER (storage w).

Definition getUsers : M (list User) := λ w, (users w, w).
Definition setUsers (l : list User) : M unit := writeStorage (withUsers l).

Definition addUser (newUser : User) : M unit :=
  us ← getUsers;
  setUsers (us ++ [newUser]).

Definition updateUser (updatedUser : User) : M bool :=
  us ← getUsers;
  match findIndex (λ u, userId_ u = userId_ updatedUser) us with
  | Some index => setUsers (<[index := updatedUser]> us) ;; mret true
  | None => mret false
  end.

Definition deleteUser (uid : string) : M bool :=
  us ← getUsers;
  let filteredUsers := filter (λ u, userId_ u ≠ uid) us in
  if bool_decide (length filteredUsers ≠ length us)
  then setUsers filteredUsers ;; mret true
  else mret false.

Definition setCurrentUser (signedIn : User) : M unit :=
  writeStorage (withCurrentUser (Some signedIn)).

Definition clearCurrentUser : M unit := writeStorage (withCurrentUser None).

Definition login (name pw : string) : M (option User) :=
  us ← getUsers;
  match find (λ u, username u = name ∧ password u = pw) us with
  | Some found => setCurrentUser found ;; mret (Some found)
  | None => mret None
  end.

Definition updateCategory (updatedCategory : ProductCategory) : M bool :=
  cats ← getCategories;
  match findIndex (λ c, categoryId_ c = categoryId_ updatedCategory) cats with
  | Some index =>
      setCategories (<[index := updatedCategory]> cats) ;; mret true
  | None => mret false
  end.

Section BulkImport.

Variable clock : nat → Timestamp.

(** [{...updatedProducts[existingIndex], name, categoryId, price, stock,
    updatedAt}] *)
Definition overwriteWith (newProduct : Product) (now : Timestamp)
    (p : Product) : Product :=
  mkProduct (productId_ p) (code p) (productName newProduct)
            (categoryId newProduct) (price newProduct) (vipPrice p)
            (stock newProduct) (productCreatedAt p) now.

(** The body of the [forEach] of [addMultipleProducts]: the code is looked
    up in the list read from the store, the update or the push goes to the
    copy. *)
Definition importProduct (prods updatedProducts : list Product)
    (newProduct : Product) : M (list Product) :=
  match findIndex (λ p, code p = code newProduct) prods with
  | Some existingIndex =>
      now ← newDate clock;
      mret (alter (overwriteWith newProduct now) existingIndex updatedProducts)
  | None => mret (updatedProducts ++ [newProduct])
  end.

Definition addMultipleProducts (newProducts : list Product) : M unit :=
  prods ← getProducts;
  updatedProducts ← forEach (importProduct prods) newProducts prods;
  setProducts updatedProducts.

End BulkImport.

(** ** The profile page ([UserProfile], its submit handler) *)

Module UserProfile.

Definition handleSubmit (profileData : User) : M unit :=
  updateUser profileData ;;
  (* If the current user is being updated, update the current user in
     storage *)
  signedIn ← getCurrentUser;
  match signedIn with
  | Some u =>
      if bool_decide (userId_ u = userId_ profileData)
      then writeStorage (withCurrentUser (Some profileData))
      else mret tt
  | None => mret tt
  end.

End UserProfile.

(** ** The transaction form, continued: the list it offers and the check of
    its first step *)

Module TransactionFormSteps.

(** The product list that the form loads when it mounts: for outgoing
    transactions, only products with stock > 0. *)
Definition loadedProducts (ty : TransactionType) (prods : list Product)
    : list Product :=
  match ty with
  | type_out => filter (λ p, 0 < stock p) prods
  | type_in => prods
  end.

(** [product && product.stock < item.quantity], the test of the filter of
    [goToDeliveryStep]. *)
Definition lacksStock (formProducts : list Product)
    (item : TransactionForm.FormItem) : bool :=
  match find (λ p, productId_ p = TransactionForm.itemProductId item)
             formProducts with
  | Some product =>
      bool_decide (stock product < TransactionForm.itemQuantity item)
  | None => false
  end.

Definition stockErrors (formProducts : list Product)
    (selectedItems : list TransactionForm.FormItem)
    : list TransactionForm.FormItem :=
  filter (λ item, lacksStock formProducts item = true) selectedItems.

(** Whether [goToDeliveryStep] moves on to the delivery step. *)
Definition goToDeliveryStep (ty : TransactionType)
    (formProducts : list Product)
    (selectedItems : list TransactionForm.FormItem) : bool :=
  match ty with
  | type_out =>
      if bool_decide (0 < length (stockErrors formProducts selectedItems))%nat
      then false
      else true
  | type_in => true
  end.

End TransactionFormSteps.

(** ** The transaction details view, continued: what its buttons do *)

Module TransactionDetailsActions.

Section Handlers.

Variable clock : nat → Timestamp.
Variable transaction : Transaction.

Definition handleStatusChange (newStatus : TransactionStatus) : M bool :=
  updateTransactionStatus clock (transactionId transaction) newStatus.

(** The submit handler of the shipping dialog:
    [{...transaction, trackingNumber, status: 'shipping', updatedAt}]. *)
Definition shippingSubmit (tracking : string) : M bool :=
  now ← newDate clock;
  updateTransaction clock
    (mkTransaction (transactionId transaction) (type transaction)
       (items transaction) (totalAmount transaction) (userId transaction)
       shipping (notes transaction) (deliveryMethodId transaction)
       (deliveryAddress transaction) (paymentMethodId transaction)
       (paymentProof transaction) (Some tracking) (createdAt transaction) now).

(** What the confirmation of each action calls. *)
Definition perform (tracking : string) (a : TransactionDetails.Action)
    : M bool :=
  match a with
  | TransactionDetails.MarkAsShipping => shippingSubmit tracking
  | _ => handleStatusChange (TransactionDetails.target a)
  end.

End Handlers.

End TransactionDetailsActions.

(** ** The low stock alert of the dashboard ([LowStockAlert]) *)

Module LowStockAlert.

(** [Array.prototype.sort] is stable; with the comparator
    [(a, b) => a.stock - b.stock] it yields the one arrangement that is
    ascending in stock and keeps products of equal stock in their order.
    Insertion from the right end, in front of the first product that has no
    lower stock, computes it ([sortByStock_sorted], [sortByStock_stable]). *)
Fixpoint insertByStock (x : Product) (l : list Product) : list Product :=
  match l with
  | [] => [x]
  | y :: l' =>
      if bool_decide (stock x ≤ stock y) then x :: y :: l'
      else y :: insertByStock x l'
  end.

Definition sortByStock (l : list Product) : list Product :=
  foldr insertByStock [] l.

Definition lowStockProducts (prods : list Product) (threshold : Z)
    (limit : nat) : list Product :=
  take limit (sortByStock (filter (λ p, stock p ≤ threshold) prods)).

End LowStockAlert.

(** ** CSV rows ([exportProductsToCSV], [parseProductsFromCSV])

    A text is the sequence of the bytes of its UTF-8 encoding here.  The
    characters that the two functions look for, the quote, the comma and the
    line feed, are single bytes that occur in no multi-byte character, and
    the white space that [trim] removes is recognised by its encoding. *)

Module Csv.

Definition quote : Ascii.ascii := Ascii.ascii_of_nat 34.
Definition comma : Ascii.ascii := Ascii.ascii_of_nat 44.

(** [name.replace] of every quote by two quotes. *)
Fixpoint escapeQuotes (s : string) : string :=
  match s with
  | EmptyString => EmptyString
  | String c rest =>
      if Ascii.eqb c quote then String quote (String quote (escapeQuotes rest))
      else String c (escapeQuotes rest)
  end.

(** [Array.prototype.join] with a comma. *)
Fixpoint join (fields : list string) : string :=
  match fields with
  | [] => EmptyString
  | [f] => f
  | f :: rest => f +:+ String comma (join rest)
  end.

(** The row that [exportProductsToCSV] writes for a product, given the name
    found for its category and the texts of its two numbers. *)
Definition row (p : Product) (theCategoryName priceText stockText : string)
    : string :=
  join [code p;
        String quote (escapeQuotes (productName p) +:+ String quote EmptyString);
        String quote (theCategoryName +:+ String quote EmptyString);
        priceText;
        stockText].

(** The character loop of [parseProductsFromCSV] over one line, from the
    state [(inQuotes, currentField, fields)]. *)
Fixpoint splitLoop (line : string) (inQuotes : bool) (currentField : string)
    (fields : list string) : list string * string :=
  match line with
  | EmptyString => (fields, currentField)
  | String char rest =>
      if Ascii.eqb char quote
      then splitLoop rest (negb inQuotes) currentField fields
      else if Ascii.eqb char comma && negb inQuotes
      then splitLoop rest inQuotes EmptyString (fields ++ [currentField])
      else splitLoop rest inQuotes (currentField +:+ String char EmptyString) fields
  end.

(** The fields of a line: the loop, then the push of the last field. *)
Definition splitFields (line : string) : list string :=
  let (fields, currentField) := splitLoop line false EmptyString [] in
  fields ++ [currentField].

(** A text without its quotes. *)
Fixpoint withoutQuotes (s : string) : string :=
  match s with
  | EmptyString => EmptyString
  | String c rest =>
      if Ascii.eqb c quote then withoutQuotes rest
      else String c (withoutQuotes rest)
  end.

(** Whether a character occurs in a text. *)
Fixpoint occurs (c : Ascii.ascii) (s : string) : bool :=
  match s with
  | EmptyString => false
  | String c' rest => Ascii.eqb c' c || occurs c rest
  end.

Definition lineFeed : Ascii.ascii := Ascii.ascii_of_nat 10.

(** The first line of the file, and the file: [csvContent += row + LF] for
    every row. *)
Definition header : string := "Code,Name,Category,Price,Stock".

Definition csvContent (rows : list string) : string :=
  foldl (λ content r, content +:+ (r +:+ String lineFeed EmptyString))
        (header +:+ String lineFeed EmptyString) rows.

(** [csvData.split] at the line feeds, from the line read so far. *)
Fixpoint linesFrom (current csvData : string) : list string :=
  match csvData with
  | EmptyString => [current]
  | String char rest =>
      if Ascii.eqb char lineFeed then current :: linesFrom EmptyString rest
      else linesFrom (current +:+ String char EmptyString) rest
  end.

(** The white space and the line terminators of ECMAScript, by the bytes of
    their encoding: U+0009 to U+000D and U+0020; U+00A0; U+1680, U+2000 to
    U+200A, U+2028, U+2029, U+202F, U+205F, U+3000 and U+FEFF. *)
Definition whiteSpace1 (c1 : Ascii.ascii) : bool :=
  bool_decide (Ascii.nat_of_ascii c1 ∈ [9; 10; 11; 12; 13; 32]%nat).

Definition whiteSpace2 (c1 c2 : Ascii.ascii) : bool :=
  bool_decide (Ascii.nat_of_ascii c1 = 194%nat
               ∧ Ascii.nat_of_ascii c2 = 160%nat).

Definition whiteSpace3 (c1 c2 c3 : Ascii.ascii) : bool :=
  bool_decide
    ((Ascii.nat_of_ascii c1, Ascii.nat_of_ascii c2, Ascii.nat_of_ascii c3)
     ∈ [(225, 154, 128); (226, 128, 168); (226, 128, 169); (226, 128, 175);
        (226, 129, 159); (227, 128, 128); (239, 187, 191)]%nat
     ∨ (Ascii.nat_of_ascii c1 = 226 ∧ Ascii.nat_of_ascii c2 = 128
        ∧ 128 ≤ Ascii.nat_of_ascii c3 ≤ 138)%nat).

(** [String.prototype.trimStart], [trimEnd] and [trim]. *)
Fixpoint trimStart (s : string) : string :=
  match s with
  | EmptyString => EmptyString
  | String c1 r1 =>
      if whiteSpace1 c1 then trimStart r1
      else
        match r1 with
        | EmptyString => s
        | String c2 r2 =>
            if whiteSpace2 c1 c2 then trimStart r2
            else
              match r2 with
              | EmptyString => s
              | String c3 r3 =>
                  if whiteSpace3 c1 c2 c3 then trimStart r3 else s
              end
        end
  end.

Definition allWhiteSpace (s : string) : bool :=
  match trimStart s with EmptyString => true | String _ _ => false end.

Fixpoint trimEnd (s : string) : string :=
  match s with
  | EmptyString => EmptyString
  | String c rest =>
      if allWhiteSpace s then EmptyString else String c (trimEnd rest)
  end.

Definition trim (s : string) : string := trimEnd (trimStart s).

(** One turn of the loop over the lines: the line is trimmed, an empty line
    is passed over, and a line of five fields or more yields its first
    five (code, name, category name, price and stock). *)
Definition parseLine (rawLine : string) : option (list string) :=
  let line := trim rawLine in
  if bool_decide (line = EmptyString) then None
  else
    let fields := splitFields line in
    if bool_decide (5 ≤ length fields)%nat then Some (take 5 fields)
    else None.

(** The fields that [parseProductsFromCSV] builds its products from: the
    loop starts at the second line. *)
Definition parsedFields (csvData : string) : list (list string) :=
  omap parseLine (drop 1 (linesFrom EmptyString csvData)).

(** A printable character of ASCII other than the space. *)
Definition visible (c : Ascii.ascii) : bool :=
  bool_decide (33 ≤ Ascii.nat_of_ascii c ≤ 126)%nat.

Definition startsVisible (s : string) : bool :=
  match s with
  | EmptyString => false
  | String c _ => visible c
  end.

Fixpoint endsVisible (s : string) : bool :=
  match s with
  | EmptyString => false
  | String c EmptyString => visible c
  | String _ rest => endsVisible rest
  end.

(** A text without quote, comma and line feed. *)
Definition plain (s : string) : bool :=
  negb (occurs quote s) && negb (occurs comma s)
  && negb (occurs lineFeed s).

(** What a row is written from: the product, the name found for its
    category and the texts of its price and its stock; the fields it is
    read back as; and the rows that are read back so. *)
Definition rowOf (e : Product * string * string * string) : string :=
  let '(p, theCategoryName, priceText, stockText) := e in
  row p theCategoryName priceText stockText.

Definition fieldsOf (e : Product * string * string * string) : list string :=
  let '(p, theCategoryName, priceText, stockText) := e in
  [code p; withoutQuotes (productName p); theCategoryName; priceText;
   stockText].

Definition exportable (e : Product * string * string * string) : Prop :=
  let '(p, theCategoryName, priceText, stockText) := e in
  plain (code p) = true
  ∧ startsVisible (code p) = true
  ∧ occurs lineFeed (productName p) = false
  ∧ occurs quote theCategoryName = false
  ∧ occurs lineFeed theCategoryName = false
  ∧ plain priceText = true
  ∧ plain stockText = true
  ∧ endsVisible stockText = true.

End Csv.

(** * Properties *)

Ltac run :=
  unfold result, after, getProducts, getCategories, getTransactions,
    getCurrentUser, setProducts, setCategories, setTransactions,
    writeStorage, withProducts, withCategories, withTransactions, record,
    newDate, generateId, hostRead, mbind, mret, M_bind, M_ret;
  cbn beta iota delta [fst snd storage hostReads ledger products transactions
       categories USERS PRODUCT_CATEGORIES PRODUCTS TRANSACTIONS SETTINGS
       CURRENT_USER].

Ltac by_computation :=
  lazymatch goal with
  | |- ?P => apply (@bool_decide_unpack P _); vm_compute; exact I
  end.

Section CatalogFacts.

Implicit Types (w : World) (cid pid : string).

Lemma filter_all_length {A} (P : A → Prop) `{∀ x, Decision (P x)}
    (l : list A) :
  length (filter P l) = length l ↔ Forall P l.
Proof.
  induction l as [|x l IH]; [by split; [constructor|]|].
  rewrite filter_cons, Forall_cons. destruct (decide (P x)) as [HP|HP]; simpl.
  - rewrite <- IH. split; [intros ?; split; [done|lia]|intros [_ ?]; lia].
  - split; [|tauto]. intros Hlen.
    pose proof (length_filter P l). lia.
Qed.

Lemma deleteCategory_in_use cid w :
  Exists (λ p, categoryId p = cid) (products w) →
  deleteCategory cid w = (false, w).
Proof.
  intros Hused. unfold deleteCategory. run.
  by rewrite bool_decide_eq_true_2.
Qed.

Lemma deleteCategory_unused cid w :
  Forall (λ p, categoryId p ≠ cid) (products w) →
  Exists (λ c, categoryId_ c = cid) (categories w) →
  result (deleteCategory cid) w = true
  ∧ categories (after (deleteCategory cid) w)
    = filter (λ c, categoryId_ c ≠ cid) (categories w)
  ∧ products (after (deleteCategory cid) w) = products w.
Proof.
  intros Hfree Hexists. unfold deleteCategory. run.
  rewrite bool_decide_eq_false_2
    by (rewrite Exists_exists; intros (p & Hp & Hc);
        rewrite Forall_forall in Hfree; by apply (Hfree p)).
  rewrite bool_decide_eq_true_2; [done|].
  rewrite filter_all_length. intros Hall.
  apply Exists_exists in Hexists as (c & Hc & Hid).
  rewrite Forall_forall in Hall. by apply (Hall c).
Qed.

Lemma deleteProduct_products pid w :
  products (after (deleteProduct pid) w)
  = filter (λ p, productId_ p ≠ pid) (products w)
  ∧ categories (after (deleteProduct pid) w) = categories w.
Proof.
  unfold deleteProduct. run. case_bool_decide as Hlen; run; [done|].
  split; [|done].
  apply filter_all_length in Hlen. symmetry.
  clear -Hlen. induction Hlen as [|x l Hx _ IH]; [done|].
  by rewrite filter_cons_True, IH.
Qed.

Lemma updateProduct_products (p' : Product) w :
  categories (after (updateProduct p') w) = categories w
  ∧ products (after (updateProduct p') w)
    = match findIndex (λ p, productId_ p = productId_ p') (products w) with
      | Some i => <[i := p']> (products w)
      | None => products w
      end.
Proof.
  unfold updateProduct, findIndex. run.
  by destruct (list_find _ _) as [[i x]|].
Qed.

Lemma updateProduct_recategorize (p' : Product) cid w :
  NoDup (productId_ <$> products w) →
  Forall (λ p, categoryId p = cid → productId_ p = productId_ p')
         (products w) →
  categoryId p' ≠ cid →
  Forall (λ p, categoryId p ≠ cid) (products (after (updateProduct p') w)).
Proof.
  intros Hnodup Honly Hnew.
  destruct (updateProduct_products p' w) as [_ ->]. unfold findIndex.
  rewrite Forall_forall in Honly.
  destruct (list_find _ _) as [[i x]|] eqn:Hfind; simpl.
  - apply list_find_Some in Hfind as (Hi & Hid & _).
    apply Forall_forall. intros q (j & Hj)%list_elem_of_lookup_1.
    apply list_lookup_insert_Some in Hj as [(-> & -> & _)|(Hne & Hj)];
      [done|].
    intros Hcat. apply Hne.
    eapply (NoDup_lookup _ i j (productId_ x)); [exact Hnodup|..].
    + by rewrite list_lookup_fmap, Hi.
    + rewrite list_lookup_fmap, Hj. simpl. f_equal.
      rewrite Hid. apply Honly; [by eapply list_elem_of_lookup_2|done].
  - apply list_find_None in Hfind. rewrite Forall_forall in Hfind.
    apply Forall_forall. intros q Hq Hcat.
    by apply (Hfind q Hq), Honly.
Qed.

End CatalogFacts.

Section Catalog.

Implicit Types (w : World) (cid pid : string).

(** C7.  [deleteCategory] returns [false] and leaves the store as it was
    whenever some product references the category; when no product
    references it and the category exists it returns [true] and removes
    exactly the categories with that id.  Hence, once the products that
    referenced the category are deleted ([deleteProduct]) or moved to
    another category ([updateProduct]), deleting it succeeds. *)
Theorem deleteCategory_referential_integrity cid w :
  (Exists (λ p, categoryId p = cid) (products w) →
     deleteCategory cid w = (false, w))
  ∧ (Forall (λ p, categoryId p ≠ cid) (products w) →
     Exists (λ c, categoryId_ c = cid) (categories w) →
     result (deleteCategory cid) w = true
     ∧ categories (after (deleteCategory cid) w)
       = filter (λ c, categoryId_ c ≠ cid) (categories w))
  ∧ (∀ pid,
       Forall (λ p, categoryId p = cid → productId_ p = pid) (products w) →
       Exists (λ c, categoryId_ c = cid) (categories w) →
       let w' := after (deleteProduct pid) w in
       result (deleteCategory cid) w' = true
       ∧ categories (after (deleteCategory cid) w')
         = filter (λ c, categoryId_ c ≠ cid) (categories w))
  ∧ (∀ p',
       NoDup (productId_ <$> products w) →
       Forall (λ p, categoryId p = cid → productId_ p = productId_ p')
              (products w) →
       categoryId p' ≠ cid →
       Exists (λ c, categoryId_ c = cid) (categories w) →
       let w' := after (updateProduct p') w in
       result (deleteCategory cid) w' = true
       ∧ categories (after (deleteCategory cid) w')
         = filter (λ c, categoryId_ c ≠ cid) (categories w)).
Proof.
  split_and!.
  - apply deleteCategory_in_use.
  - intros Hfree Hexists.
    by destruct (deleteCategory_unused cid w Hfree Hexists) as (? & ? & _).
  - intros pid Honly Hexists w'.
    destruct (deleteProduct_products pid w) as [Hprods Hcats].
    rewrite <- Hcats in Hexists |- *.
    assert (Forall (λ p, categoryId p ≠ cid) (products w')) as Hfree.
    { subst w'. rewrite Hprods. apply Forall_forall.
      intros q [Hq Hin]%list_elem_of_filter Hcat.
      rewrite Forall_forall in Honly. by apply Hq, Honly. }
    by destruct (deleteCategory_unused cid w' Hfree Hexists) as (? & ? & _).
  - intros p' Hnodup Honly Hnew Hexists w'.
    destruct (updateProduct_products p' w) as [Hcats _].
    rewrite <- Hcats in Hexists |- *.
    assert (Forall (λ p, categoryId p ≠ cid) (products w')) as Hfree
      by by apply updateProduct_recategorize.
    by destruct (deleteCategory_unused cid w' Hfree Hexists) as (? & ? & _).
Qed.

(** The scenario of C7: category [C1] is referenced by product [P1] only. *)
Lemma deleteCategory_referential_integrity_witness :
  deleteCategory "C1" Sample.shop = (false, Sample.shop)
  ∧ result (deleteCategory "C1") (Sample.world [] []) = true
  ∧ result (deleteCategory "C1") (after (deleteProduct "P1") Sample.shop)
    = true
  ∧ result (deleteCategory "C1")
      (after (updateProduct
                (mkProduct "P1" "code-P1" "LCD" "C2" 100 None 5
                           Sample.epoch Sample.epoch)) Sample.shop) = true.
Proof.
  destruct (deleteCategory_referential_integrity "C1" Sample.shop)
    as (Hused & _ & Hdeleted & Hmoved).
  destruct (deleteCategory_referential_integrity "C1" (Sample.world [] []))
    as (_ & Hfree & _).
  split_and!.
  - apply Hused. by_computation.
  - apply Hfree; by_computation.
  - apply (Hdeleted "P1"); by_computation.
  - apply Hmoved; by_computation.
Defined.

(** C8.  [updateProduct] writes the products collection only: the stored
    transactions, and with them every item and its [priceAtTransaction],
    are what they were, whatever the new product record (and its price)
    is. *)
Theorem updateProduct_keeps_transactions (updatedProduct : Product) w :
  let w' := after (updateProduct updatedProduct) w in
  transactions w' = transactions w
  ∧ ((λ t, priceAtTransaction <$> items t) <$> transactions w')
    = ((λ t, priceAtTransaction <$> items t) <$> transactions w)
  ∧ storage w' = withProducts (products w') (storage w)
  ∧ hostReads w' = hostReads w
  ∧ ledger w' = ledger w.
Proof.
  unfold updateProduct. run.
  destruct (findIndex _ _); run; by destruct w as [[] ? ?].
Qed.

End Catalog.

Section Pricing.

(** C9.  [getPriceForUser] returns the VIP price for a VIP user when the
    product has one, and the base price in every other case: for a VIP
    user on a product without a VIP price, and for a regular user.  It is
    a function of its two arguments alone: it neither reads nor writes the
    store. *)
Theorem getPriceForUser_resolves (product : Product) (tier : UserType) :
  (∀ v, tier = vip → vipPrice product = Some v →
        getPriceForUser product tier = v)
  ∧ (tier = vip → vipPrice product = None →
     getPriceForUser product tier = price product)
  ∧ (tier = regular → getPriceForUser product tier = price product).
Proof.
  unfold getPriceForUser. split_and!.
  - by intros v -> ->.
  - by intros -> ->.
  - by intros ->.
Qed.

Lemma getPriceForUser_resolves_witness :
  getPriceForUser
    (mkProduct "P1" "LCD-01" "LCD" "C1" 100 (Some 80) 5
               Sample.epoch Sample.epoch) vip = 80
  ∧ getPriceForUser (Sample.product "P1" 5) vip = 100
  ∧ getPriceForUser
      (mkProduct "P1" "LCD-01" "LCD" "C1" 100 (Some 80) 5
                 Sample.epoch Sample.epoch) regular = 100.
Proof.
  split_and!.
  - apply (proj1 (getPriceForUser_resolves _ vip)); reflexivity.
  - exact (proj1 (proj2 (getPriceForUser_resolves
                           (Sample.product "P1" 5) vip))
                 eq_refl eq_refl).
  - exact (proj2 (proj2 (getPriceForUser_resolves
                           (mkProduct "P1" "LCD-01" "LCD" "C1" 100 (Some 80)
                                      5 Sample.epoch Sample.epoch) regular))
                 eq_refl).
Defined.

End Pricing.

Section LedgerView.

Variable clock : nat → Timestamp.

Implicit Types (w : World) (prods : list Product) (v : StockView)
  (item : TransactionItem) (its : list TransactionItem) (c : StockChange).

Lemma findIndex_view (x : string) prods :
  findIndex (λ e, e.1 = x) (view prods)
  = findIndex (λ p, productId_ p = x) prods.
Proof.
  unfold findIndex, view. rewrite list_find_fmap.
  rewrite <- option_fmap_compose.
  by destruct (list_find _ prods) as [[i p]|].
Qed.


Lemma view_alter c q (now : Timestamp) (update : Product → Product) i prods :
  (∀ p, productId_ (update p) = productId_ p) →
  (∀ p, stock (update p) = changeStock c (stock p) q) →
  view (alter (setProductUpdatedAt now) i (alter update i prods))
  = alter (λ e, (e.1, changeStock c e.2 q)) i (view prods).
Proof.
  intros Hid Hstock. rewrite list_alter_alter_eq. unfold view.
  apply list_fmap_alter, Forall_forall. intros p _. simpl.
  by rewrite Hid, Hstock.
Qed.

Lemma updateStockItem_view ty prods item w :
  view (result (updateStockItem clock ty prods item) w)
  = viewStep (applyChange ty) (view prods) item
  ∧ storage (after (updateStockItem clock ty prods item) w) = storage w
  ∧ ledger (after (updateStockItem clock ty prods item) w) = ledger w.
Proof.
  unfold updateStockItem, viewStep. rewrite findIndex_view.
  destruct (findIndex _ prods) as [i|]; run; [|done].
  split; [|done].
  destruct ty; [apply (view_alter Credit)|apply (view_alter Debit)];
    intros p; simpl; try done; by case_bool_decide.
Qed.

Lemma reverseStockItem_view ty prods item w :
  view (result (reverseStockItem clock ty prods item) w)
  = viewStep (reverseChange ty) (view prods) item
  ∧ storage (after (reverseStockItem clock ty prods item) w) = storage w
  ∧ ledger (after (reverseStockItem clock ty prods item) w) = ledger w.
Proof.
  unfold reverseStockItem, viewStep. rewrite findIndex_view.
  destruct (findIndex _ prods) as [i|]; run; [|done].
  split; [|done].
  destruct ty; [apply (view_alter Debit)|apply (view_alter Credit)];
    intros p; simpl; try done; by case_bool_decide.
Qed.

(** A loop whose body replays [viewStep] and leaves the store alone computes
    [viewLoop]. *)
Lemma forEach_view c (body : list Product → TransactionItem → M (list Product))
    its prods w :
  (∀ prods item w,
     view (result (body prods item) w) = viewStep c (view prods) item
     ∧ storage (after (body prods item) w) = storage w
     ∧ ledger (after (body prods item) w) = ledger w) →
  view (result (forEach body its prods) w) = viewLoop c its (view prods)
  ∧ storage (after (forEach body its prods) w) = storage w
  ∧ ledger (after (forEach body its prods) w) = ledger w.
Proof.
  intros Hbody. revert prods w.
  induction its as [|item its IH]; intros prods w; [done|].
  specialize (Hbody prods item w). revert Hbody.
  unfold result, after. simpl. unfold mbind, M_bind.
  destruct (body prods item w) as [prods' w'] eqn:Hstep. simpl.
  intros (Hview & Hstorage & Hledger).
  specialize (IH prods' w'). unfold result, after in IH.
  destruct IH as (IHview & IHstorage & IHledger).
  unfold viewLoop in *. simpl. by rewrite <- Hview, IHview, IHstorage, IHledger.
Qed.

(** What the two routines do to the world. *)
Lemma ledger_view (t : Transaction) w :
  status t = completed →
  (let w' := after (updateStockFromTransaction clock t) w in
   view (products w') = viewLoop (applyChange (type t)) (items t)
                                 (view (products w))
   ∧ storage w' = withProducts (products w') (storage w)
   ∧ ledger w' = ledger w ++ [Applied t])
  ∧ (let w' := after (reverseTransactionStockEffects clock t) w in
     view (products w') = viewLoop (reverseChange (type t)) (items t)
                                   (view (products w))
     ∧ storage w' = withProducts (products w') (storage w)
     ∧ ledger w' = ledger w ++ [Reversed t]).
Proof.
  intros Hst. split.
  - unfold updateStockFromTransaction. rewrite bool_decide_eq_false_2 by auto.
    run.
    pose proof (forEach_view (applyChange (type t))
                  (updateStockItem clock (type t)) (items t) (products w)
                  (mkWorld (storage w) (hostReads w) (ledger w ++ [Applied t]))
                  (updateStockItem_view (type t))) as (Hv & Hs & Hl).
    unfold result, after in Hv, Hs, Hl.
    destruct (forEach _ _ _ _) as [prods' w']. unfold products in *.
    simpl in *. by rewrite Hv, Hs, Hl.
  - unfold reverseTransactionStockEffects.
    rewrite bool_decide_eq_false_2 by auto. run.
    pose proof (forEach_view (reverseChange (type t))
                  (reverseStockItem clock (type t)) (items t) (products w)
                  (mkWorld (storage w) (hostReads w)
                           (ledger w ++ [Reversed t]))
                  (reverseStockItem_view (type t))) as (Hv & Hs & Hl).
    unfold result, after in Hv, Hs, Hl.
    destruct (forEach _ _ _ _) as [prods' w']. unfold products in *.
    simpl in *. by rewrite Hv, Hs, Hl.
Qed.

Lemma ledger_guard (t : Transaction) w :
  status t ≠ completed →
  updateStockFromTransaction clock t w = ((), w)
  ∧ reverseTransactionStockEffects clock t w = ((), w).
Proof.
  intros Hst. unfold updateStockFromTransaction, reverseTransactionStockEffects.
  by rewrite bool_decide_eq_true_2.
Qed.

End LedgerView.

Section Rounding.

Implicit Types (z : Z).

Lemma roundToDouble_safe z :
  Z.abs z ≤ Number.MAX_SAFE_INTEGER → Number.roundToDouble z = z.
Proof.
  intros Hz. unfold Number.roundToDouble. by rewrite bool_decide_eq_true_2.
Qed.

(** Beyond the safe integers a number rounds to a positive multiple of the
    distance between doubles, with the sign it has. *)
Lemma roundToDouble_magnitude z :
  Number.MAX_SAFE_INTEGER < Z.abs z →
  ∃ m, 0 < m ∧ Number.roundToDouble z = Z.sgn z * m.
Proof.
  intros Hz. unfold Number.roundToDouble.
  rewrite bool_decide_eq_false_2 by lia.
  set (ulp := 2 ^ (Z.log2 (Z.abs z) - 52)).
  assert (0 < Z.abs z) as Hpos by (unfold Number.MAX_SAFE_INTEGER in Hz; lia).
  assert (52 < Z.log2 (Z.abs z)) as Hlog.
  { assert (53 ≤ Z.log2 (Z.abs z)); [|lia].
    apply Z.log2_le_pow2; [done|].
    unfold Number.MAX_SAFE_INTEGER in Hz. lia. }
  assert (0 < ulp) as Hulp by (apply Z.pow_pos_nonneg; lia).
  assert (ulp ≤ Z.abs z) as Hle.
  { etrans; [|apply Z.log2_spec; done].
    apply Z.pow_le_mono_r; lia. }
  assert (0 < Z.abs z / ulp) as Hkept by (apply Z.div_str_pos; lia).
  eexists. split; [|reflexivity].
  apply Z.mul_pos_pos; [|done].
  repeat case_bool_decide; try lia. destruct (Z.even _); lia.
Qed.

Lemma roundToDouble_nonneg z : 0 ≤ z → 0 ≤ Number.roundToDouble z.
Proof.
  intros Hz.
  destruct (decide (Z.abs z ≤ Number.MAX_SAFE_INTEGER)) as [Hsafe|Hbig].
  - by rewrite roundToDouble_safe.
  - destruct (roundToDouble_magnitude z) as (m & Hm & ->); [lia|].
    assert (0 ≤ Z.sgn z) by (by apply Z.sgn_nonneg). nia.
Qed.

Lemma roundToDouble_neg z : z < 0 → Number.roundToDouble z < 0.
Proof.
  intros Hz.
  destruct (decide (Z.abs z ≤ Number.MAX_SAFE_INTEGER)) as [Hsafe|Hbig].
  - by rewrite roundToDouble_safe.
  - destruct (roundToDouble_magnitude z) as (m & Hm & ->); [lia|].
    rewrite Z.sgn_neg by done. lia.
Qed.

(** The sign of a difference survives the rounding. *)
Lemma sub_neg_iff (a b : Z) : Number.sub a b < 0 ↔ a - b < 0.
Proof.
  unfold Number.sub. split; [|apply roundToDouble_neg].
  intros Hneg. destruct (decide (a - b < 0)) as [|Hpos]; [done|].
  pose proof (roundToDouble_nonneg (a - b)). lia.
Qed.

End Rounding.

Section StockArithmetic.

Implicit Types (c : StockChange) (s q : Z) (qs : list Z).







Lemma changeStock_nonneg c s q : 0 ≤ s → 0 ≤ q → 0 ≤ changeStock c s q.
Proof.
  intros Hs Hq. destruct c; simpl.
  - apply roundToDouble_nonneg. lia.
  - case_bool_decide; lia.
Qed.

End StockArithmetic.

Section ViewFacts.

Implicit Types (v : StockView) (item : TransactionItem)
  (its : list TransactionItem) (c : StockChange) (j : nat) (x : string).

Lemma findIndex_ids x v :
  findIndex (λ e, e.1 = x) v = findIndex (λ y, y = x) (v.*1).
Proof.
  unfold findIndex. rewrite list_find_fmap, <- option_fmap_compose.
  by destruct (list_find _ v) as [[i e]|].
Qed.

Lemma viewStep_ids c v item : (viewStep c v item).*1 = v.*1.
Proof.
  unfold viewStep. destruct (findIndex _ v) as [i|]; [|done].
  rewrite (list_fmap_alter fst _ id); [by rewrite list_alter_id|].
  by apply Forall_forall.
Qed.


Lemma quantitiesAt_ids v v' j its :
  v'.*1 = v.*1 → quantitiesAt v' j its = quantitiesAt v j its.
Proof.
  intros Hids. unfold quantitiesAt. f_equal. apply list_filter_iff.
  intros item. by rewrite !findIndex_ids, Hids.
Qed.

Lemma quantitiesAt_cons v j item its :
  quantitiesAt v j (item :: its)
  = if bool_decide (findIndex (λ e, e.1 = productId item) v = Some j)
    then quantity item :: quantitiesAt v j its
    else quantitiesAt v j its.
Proof.
  unfold quantitiesAt. rewrite filter_cons.
  case_bool_decide; by rewrite ?decide_True, ?decide_False by done.
Qed.

Lemma viewStep_lookup c v item j :
  viewStep c v item !! j
  = (λ e, (e.1,
           if bool_decide (findIndex (λ e, e.1 = productId item) v = Some j)
           then changeStock c e.2 (quantity item) else e.2)) <$> v !! j.
Proof.
  unfold viewStep. destruct (findIndex _ v) as [i|] eqn:Hfind.
  - destruct (decide (i = j)) as [->|Hne].
    + rewrite list_lookup_alter_eq, bool_decide_eq_true_2 by done. done.
    + rewrite list_lookup_alter_ne, bool_decide_eq_false_2 by congruence.
      by destruct (v !! j) as [[]|].
  - rewrite bool_decide_eq_false_2 by done. by destruct (v !! j) as [[]|].
Qed.

(** The loop, seen at one index: the stock found there goes through the
    quantities of the items that resolve to this index, in item order. *)
Lemma viewLoop_lookup c its v j :
  viewLoop c its v !! j
  = (λ e, (e.1, foldl (changeStock c) e.2 (quantitiesAt v j its))) <$> v !! j.
Proof.
  revert v. induction its as [|item its IH]; intros v.
  - unfold viewLoop, quantitiesAt. simpl. by destruct (v !! j) as [[]|].
  - change (viewLoop c (item :: its) v)
      with (viewLoop c its (viewStep c v item)).
    rewrite IH, (quantitiesAt_ids v) by apply viewStep_ids.
    rewrite viewStep_lookup, quantitiesAt_cons.
    destruct (v !! j) as [[x s]|]; [|done]. simpl.
    by case_bool_decide.
Qed.



Lemma viewLoop_nonneg c its v :
  Forall (λ e, 0 ≤ e.2) v →
  Forall (λ item, 0 ≤ quantity item) its →
  Forall (λ e, 0 ≤ e.2) (viewLoop c its v).
Proof.
  intros Hv Hits. revert v Hv.
  induction Hits as [|item its Hq _ IH]; intros v Hv; [done|].
  apply IH. unfold viewStep. destruct (findIndex _ v) as [i|]; [|done].
  apply Forall_alter; [done|]. intros e _ He. simpl.
  by apply changeStock_nonneg.
Qed.

End ViewFacts.

Section Sufficiency.

Implicit Types (w : World) (prods : list Product) (item : TransactionItem)
  (its : list TransactionItem).

Lemma sufficientStock_spec prods its :
  sufficientStock prods its = true
  ↔ Forall (λ item, ∃ p, find (λ p, productId_ p = productId item) prods
                          = Some p
                        ∧ quantity item ≤ stock p) its.
Proof.
  induction its as [|item its IH]; simpl; [by split; [constructor|]|].
  rewrite Forall_cons, <- IH. clear IH.
  destruct (find _ prods) as [p|].
  - case_bool_decide as Hlt.
    + split; [done|]. intros [(p' & [= <-] & ?) _]. lia.
    + split; [|tauto]. intros ?. split; [|done]. exists p. split; [done|lia].
  - split; [done|]. by intros [(p' & ? & _) _].
Qed.

Lemma canProcessTransaction_result (t : Transaction) w :
  result (canProcessTransaction t) w
  = match type t with
    | type_out => sufficientStock (products w) (items t)
    | type_in => true
    end.
Proof. unfold canProcessTransaction. by destruct (type t). Qed.

(** C5.  [canProcessTransaction] leaves the world as it is.  For an [out]
    transaction it returns [true] exactly when every item's product is found
    in the stored collection with a stock of at least the item's quantity;
    for an [in] transaction it returns [true]. *)
Theorem canProcessTransaction_sufficiency (t : Transaction) w :
  after (canProcessTransaction t) w = w
  ∧ (type t = type_out →
     (result (canProcessTransaction t) w = true
      ↔ Forall (λ item,
                  ∃ p, find (λ p, productId_ p = productId item) (products w)
                       = Some p
                     ∧ quantity item ≤ stock p) (items t)))
  ∧ (type t = type_in → result (canProcessTransaction t) w = true).
Proof.
  unfold canProcessTransaction. split_and!.
  - by destruct (type t).
  - intros ->. run. apply sufficientStock_spec.
  - by intros ->.
Qed.

(** The scenario of the specification: stock 5 satisfies an order for 5;
    once the stock is 0 an order for 1 is refused. *)
Lemma canProcessTransaction_sufficiency_witness :
  Forall (λ item,
            ∃ p, find (λ p, productId_ p = productId item)
                      (products Sample.shop) = Some p
               ∧ quantity item ≤ stock p)
         (items (Sample.order type_out pending [mkItem "P1" 5 100]))
  ∧ ¬ Forall (λ item,
                ∃ p, find (λ p, productId_ p = productId item)
                          (products (Sample.world [Sample.product "P1" 0] []))
                     = Some p
                   ∧ quantity item ≤ stock p)
             (items (Sample.order type_out pending [mkItem "P1" 1 100]))
  ∧ result (canProcessTransaction
              (Sample.order type_in completed [mkItem "P9" 1 100]))
           (Sample.world [Sample.product "P1" 0] []) = true.
Proof.
  split_and!.
  - apply (proj1 (proj2 (canProcessTransaction_sufficiency
                           (Sample.order type_out pending [mkItem "P1" 5 100])
                           Sample.shop))
                 eq_refl).
    reflexivity.
  - intros Hall.
    apply (proj1 (proj2 (canProcessTransaction_sufficiency
                           (Sample.order type_out pending [mkItem "P1" 1 100])
                           (Sample.world [Sample.product "P1" 0] [])))
                 eq_refl) in Hall.
    discriminate Hall.
  - apply (proj2 (proj2 (canProcessTransaction_sufficiency
                           (Sample.order type_in completed
                              [mkItem "P9" 1 100]) _))).
    reflexivity.
Defined.

End Sufficiency.

Section Transitions.

Variable clock : nat → Timestamp.

Implicit Types (w : World) (t u old : Transaction) (tid : string)
  (st : TransactionStatus).

Lemma updateTransaction_missing u w :
  list_find (λ t, transactionId t = transactionId u) (transactions w) = None →
  updateTransaction clock u w = (false, w).
Proof. intros Hfind. unfold updateTransaction. run. by rewrite Hfind. Qed.

(** What [updateTransaction] does once the id is found: the record at the
    index is replaced, and the ledger runs according to the old and the new
    status. *)
Lemma updateTransaction_found u w i old :
  list_find (λ t, transactionId t = transactionId u) (transactions w)
  = Some (i, old) →
  let w' := after (updateTransaction clock u) w in
  result (updateTransaction clock u) w = true
  ∧ transactions w' = <[i := u]> (transactions w)
  ∧ (status old ≠ completed → status u = completed →
     ledger w' = ledger w ++ [Applied u]
     ∧ view (products w')
       = viewLoop (applyChange (type u)) (items u) (view (products w)))
  ∧ (status old = completed → status u ≠ completed →
     ledger w' = ledger w ++ [Reversed old]
     ∧ view (products w')
       = viewLoop (reverseChange (type old)) (items old) (view (products w)))
  ∧ ((status old = completed ↔ status u = completed) →
     ledger w' = ledger w ∧ products w' = products w).
Proof.
  intros Hfind. unfold updateTransaction. run. rewrite Hfind.
  destruct (decide (status old = completed)) as [Hold|Hold];
    destruct (decide (status u = completed)) as [Hnew|Hnew].
  - rewrite (bool_decide_eq_false_2 (status old ≠ completed)) by auto.
    rewrite (bool_decide_eq_false_2 (status u ≠ completed)) by auto.
    rewrite andb_false_r. simpl. split_and!; try done; tauto.
  - rewrite (bool_decide_eq_false_2 (status old ≠ completed)) by auto.
    rewrite (bool_decide_eq_true_2 (status old = completed)) by auto.
    rewrite (bool_decide_eq_true_2 (status u ≠ completed)) by auto.
    simpl.
    destruct (ledger_view clock old w Hold) as [_ (Hv & Hs & Hl)].
    unfold after in Hv, Hs, Hl.
    destruct (reverseTransactionStockEffects clock old w) as [[] w1].
    unfold products in *. simpl in *.
    split_and!; try done; try tauto; by rewrite Hs.
  - rewrite (bool_decide_eq_true_2 (status old ≠ completed)) by auto.
    rewrite (bool_decide_eq_true_2 (status u = completed)) by auto.
    simpl.
    destruct (ledger_view clock u w Hnew) as [(Hv & Hs & Hl) _].
    unfold after in Hv, Hs, Hl.
    destruct (updateStockFromTransaction clock u w) as [[] w1].
    unfold products in *. simpl in *.
    split_and!; try done; try tauto; by rewrite Hs.
  - rewrite (bool_decide_eq_false_2 (status u = completed)) by auto.
    rewrite (bool_decide_eq_false_2 (status old = completed)) by auto.
    rewrite andb_false_r. simpl. split_and!; try done; tauto.
Qed.

Lemma updateTransactionStatus_missing tid st w :
  list_find (λ t, transactionId t = tid) (transactions w) = None →
  updateTransactionStatus clock tid st w = (false, w).
Proof. intros Hfind. unfold updateTransactionStatus. run. by rewrite Hfind. Qed.

(** [updateTransactionStatus] is [updateTransaction] on the stored record
    with the new status, one clock read later. *)
Lemma updateTransactionStatus_found tid st w i old :
  list_find (λ t, transactionId t = tid) (transactions w) = Some (i, old) →
  let u := setStatus st (clock (hostReads w)) old in
  let w0 := mkWorld (storage w) (S (hostReads w)) (ledger w) in
  updateTransactionStatus clock tid st w = updateTransaction clock u w0
  ∧ list_find (λ t, transactionId t = transactionId u) (transactions w0)
    = Some (i, old).
Proof.
  intros Hfind. unfold updateTransactionStatus. run. rewrite Hfind.
  split; [done|]. simpl.
  rewrite <- Hfind. apply list_find_ext. intros t.
  apply list_find_Some in Hfind as (_ & Hid & _). by rewrite Hid.
Qed.

End Transitions.

Section DetailsView.

Import TransactionDetails.

(** Every action that the details view offers is an edge of the lifecycle of
    the specification, offered to an actor that the specification allows. *)
Lemma offered_is_legal (transaction : Transaction) (currentUser : option User)
    (namedPickup : bool) (a : Action) :
  offered transaction currentUser namedPickup a = true →
  spec_legal_successor (status transaction) (target a) = true
  ∧ spec_actor_allowed (status transaction) (target a)
      (isOwner transaction currentUser) (isAdmin currentUser) = true.
Proof.
  unfold offered, canConfirmPayment, canProcessTransaction, canMarkAsReady,
    canMarkAsShipping, canCompleteTransaction, canCancelTransaction.
  destruct a, (status transaction), (isOwner transaction currentUser),
    (isAdmin currentUser), namedPickup, (type transaction);
    simpl; intros H; try discriminate H; done.
Qed.

End DetailsView.

Section TransitionClaims.

Variable clock : nat → Timestamp.

Implicit Types (w : World) (t u old : Transaction) (tid : string)
  (st : TransactionStatus).

(** C1, as the code has it.  [updateTransactionStatus] refuses a request only
    when no stored transaction has the id: it then returns [false] and leaves
    the world as it was.  For a stored id it checks neither the target status
    nor an actor (it is given none): it writes the target status into the
    first transaction with that id and returns [true].  The rules of the
    lifecycle are kept by the details view, which offers an action only along
    a legal edge and to an allowed actor. *)
Theorem updateTransactionStatus_checks_only_the_id tid st w :
  (list_find (λ t, transactionId t = tid) (transactions w) = None →
   updateTransactionStatus clock tid st w = (false, w))
  ∧ (∀ i old,
       list_find (λ t, transactionId t = tid) (transactions w)
       = Some (i, old) →
       result (updateTransactionStatus clock tid st) w = true
       ∧ transactions (after (updateTransactionStatus clock tid st) w)
         = <[i := setStatus st (clock (hostReads w)) old]> (transactions w))
  ∧ (∀ transaction currentUser namedPickup a,
       TransactionDetails.offered transaction currentUser namedPickup a
       = true →
       spec_legal_successor (status transaction) (TransactionDetails.target a)
       = true
       ∧ spec_actor_allowed (status transaction) (TransactionDetails.target a)
           (TransactionDetails.isOwner transaction currentUser)
           (TransactionDetails.isAdmin currentUser) = true).
Proof.
  split_and!.
  - apply updateTransactionStatus_missing.
  - intros i old Hfind.
    destruct (updateTransactionStatus_found clock tid st w i old Hfind)
      as [Heq Hfind'].
    unfold result, after. rewrite Heq.
    by destruct (updateTransaction_found clock _ _ i old Hfind')
      as (? & ? & _).
  - apply offered_is_legal.
Qed.

End TransitionClaims.

Lemma updateTransactionStatus_checks_only_the_id_witness :
  updateTransactionStatus Sample.clock "T9" completed Sample.orderedShop
  = (false, Sample.orderedShop)
  ∧ result (updateTransactionStatus Sample.clock "T1" cancelled)
           Sample.orderedShop = true
  ∧ spec_legal_successor pending payment_confirmed = true.
Proof.
  destruct (updateTransactionStatus_checks_only_the_id Sample.clock
              "T9" completed Sample.orderedShop) as (Hmissing & _ & _).
  destruct (updateTransactionStatus_checks_only_the_id Sample.clock
              "T1" cancelled Sample.orderedShop) as (_ & Hfound & Hview).
  split_and!.
  - apply Hmissing. reflexivity.
  - apply (Hfound 0%nat Sample.pendingOrder). reflexivity.
  - apply (Hview Sample.pendingOrder (Some Sample.theUser) false
                 TransactionDetails.ConfirmPayment).
    reflexivity.
Defined.

(** C1, as the claim states it, fails: the skip from [pending] to
    [completed], which is no edge of the lifecycle, is requested for a stored
    order; the call returns [true] and the order is completed. *)
Lemma updateTransactionStatus_accepts_illegal_transition :
  status <$> transactions Sample.orderedShop = [pending]
  ∧ spec_legal_successor pending completed = false
  ∧ result (updateTransactionStatus Sample.clock "T1" completed)
           Sample.orderedShop = true
  ∧ status <$> transactions
                 (after (updateTransactionStatus Sample.clock "T1" completed)
                        Sample.orderedShop)
    = [completed].
Proof. by vm_compute. Qed.

Section LedgerHistory.

Variable clock : nat → Timestamp.

Implicit Types (w : World) (t u old : Transaction) (tid : string)
  (st : TransactionStatus) (log : list LedgerCall).

Lemma netApplied_app tid log log' :
  netApplied tid (log ++ log') = netApplied tid log + netApplied tid log'.
Proof.
  induction log as [|[t|t] log IH]; simpl; [done|rewrite IH; lia..].
Qed.

(** Replacing the first record with the id of [u] by [u] changes what a
    search for this id finds, and nothing for another id. *)
Lemma find_after_update u (txs : list Transaction) i old tid :
  list_find (λ t, transactionId t = transactionId u) txs = Some (i, old) →
  find (λ t, transactionId t = tid) (<[i := u]> txs)
  = if decide (tid = transactionId u) then Some u
    else find (λ t, transactionId t = tid) txs.
Proof.
  intros (Hi & Hid & Hleast)%list_find_Some. unfold find.
  destruct (decide (tid = transactionId u)) as [->|Hne].
  - rewrite (proj2 (list_find_Some _ _ i u)); [done|]. split_and!; [|done|].
    + apply list_lookup_insert_eq. by eapply lookup_lt_Some.
    + intros j y Hj Hlt. rewrite list_lookup_insert_ne in Hj by lia.
      by eapply Hleast.
  - destruct (list_find (λ t, transactionId t = tid) txs) as [[k y]|] eqn:Hk.
    + apply list_find_Some in Hk as (Hk & Hy & Hkleast).
      rewrite (proj2 (list_find_Some _ _ k y)); [done|].
      assert (i ≠ k) by (intros ->; congruence).
      split_and!; [by rewrite list_lookup_insert_ne|done|].
      intros j z Hj Hlt.
      apply list_lookup_insert_Some in Hj as [(-> & -> & _)|(_ & Hj)];
        [congruence|by eapply Hkleast].
    + rewrite (proj2 (list_find_None _ _)); [done|].
      apply list_find_None in Hk. apply Forall_insert; [done|congruence].
Qed.

Lemma updateTransaction_balanced u w :
  ledgerBalanced w → ledgerBalanced (after (updateTransaction clock u) w).
Proof.
  intros Hw tid.
  destruct (list_find (λ t, transactionId t = transactionId u)
              (transactions w)) as [[i old]|] eqn:Hfind.
  - destruct (updateTransaction_found clock u w i old Hfind)
      as (_ & Htxs & Hinto & Hout & Hsame).
    unfold completedNow. rewrite Htxs, (find_after_update u _ i old) by done.
    specialize (Hw tid). unfold completedNow in Hw.
    pose proof Hfind as (_ & Hid & _)%list_find_Some.
    destruct (decide (tid = transactionId u)) as [->|Hne].
    + unfold find in Hw. rewrite Hfind in Hw. simpl in Hw.
      destruct (decide (status old = completed)) as [Hold|Hold];
        destruct (decide (status u = completed)) as [Hnew|Hnew].
      * destruct Hsame as [-> _]; [tauto|].
        by rewrite !bool_decide_eq_true_2 in * by done.
      * destruct (Hout Hold Hnew) as [-> _]. rewrite netApplied_app, Hw.
        simpl. rewrite !bool_decide_eq_true_2 by done.
        by rewrite bool_decide_eq_false_2 by done.
      * destruct (Hinto Hold Hnew) as [-> _]. rewrite netApplied_app, Hw.
        simpl. rewrite (bool_decide_eq_false_2 (status old = completed))
          by done.
        by rewrite !bool_decide_eq_true_2 by done.
      * destruct Hsame as [-> _]; [tauto|].
        by rewrite !bool_decide_eq_false_2 in * by done.
    + destruct (decide (status old = completed)) as [Hold|Hold];
        destruct (decide (status u = completed)) as [Hnew|Hnew].
      * by destruct Hsame as [-> _]; [tauto|].
      * destruct (Hout Hold Hnew) as [-> _]. rewrite netApplied_app, Hw.
        simpl. rewrite bool_decide_eq_false_2 by congruence. lia.
      * destruct (Hinto Hold Hnew) as [-> _]. rewrite netApplied_app, Hw.
        simpl. rewrite bool_decide_eq_false_2 by congruence. lia.
      * by destruct Hsame as [-> _]; [tauto|].
  - unfold after. by rewrite (updateTransaction_missing clock u w Hfind).
Qed.

Lemma updateTransactionStatus_balanced tid st w :
  ledgerBalanced w →
  ledgerBalanced (after (updateTransactionStatus clock tid st) w).
Proof.
  intros Hw.
  destruct (list_find (λ t, transactionId t = tid) (transactions w))
    as [[i old]|] eqn:Hfind.
  - destruct (updateTransactionStatus_found clock tid st w i old Hfind)
      as [Heq _].
    unfold after. rewrite Heq. by apply updateTransaction_balanced.
  - unfold after.
    by rewrite (updateTransactionStatus_missing clock tid st w Hfind).
Qed.

Lemma addTransaction_world t w :
  let w' := after (addTransaction clock t) w in
  transactions w' = transactions w ++ [t]
  ∧ (status t = completed →
     ledger w' = ledger w ++ [Applied t]
     ∧ view (products w')
       = viewLoop (applyChange (type t)) (items t) (view (products w)))
  ∧ (status t ≠ completed → ledger w' = ledger w ∧ products w' = products w).
Proof.
  unfold addTransaction. run. case_bool_decide as Hst.
  - pose proof (ledger_view clock t
                  (mkWorld (withTransactions (transactions w ++ [t])
                                             (storage w))
                           (hostReads w) (ledger w)) Hst)
      as [(Hv & Hs & Hl) _].
    unfold after, withTransactions, transactions in *.
    destruct (updateStockFromTransaction _ _ _) as [[] w1].
    unfold products in *. simpl in *.
    rewrite Hs. split_and!; done.
  - simpl. split_and!; done.
Qed.

Lemma addTransaction_balanced t w :
  find (λ t', transactionId t' = transactionId t) (transactions w) = None →
  ledgerBalanced w → ledgerBalanced (after (addTransaction clock t) w).
Proof.
  intros Hfresh Hw tid.
  destruct (addTransaction_world t w) as (Htxs & Hdone & Hopen).
  specialize (Hw tid). unfold completedNow, find in *. rewrite Htxs.
  destruct (list_find (λ t', transactionId t' = tid) (transactions w))
    as [[k y]|] eqn:Hk.
  - rewrite (list_find_app_l _ _ _ k y Hk). simpl in *.
    assert (tid ≠ transactionId t) as Hne.
    { intros ->. by rewrite Hk in Hfresh. }
    destruct (decide (status t = completed)) as [Hst|Hst].
    + destruct (Hdone Hst) as [-> _]. rewrite netApplied_app, Hw. simpl.
      rewrite (bool_decide_eq_false_2 (transactionId t = tid)) by congruence.
      lia.
    + by destruct (Hopen Hst) as [-> _].
  - rewrite list_find_app_r by done. simpl in *.
    destruct (decide (transactionId t = tid)) as [Hid|Hid]; simpl.
    + destruct (decide (status t = completed)) as [Hst|Hst].
      * destruct (Hdone Hst) as [-> _]. rewrite netApplied_app, Hw. simpl.
        by rewrite !bool_decide_eq_true_2 by done.
      * destruct (Hopen Hst) as [-> _].
        by rewrite bool_decide_eq_false_2 by done.
    + destruct (decide (status t = completed)) as [Hst|Hst].
      * destruct (Hdone Hst) as [-> _]. rewrite netApplied_app, Hw. simpl.
        by rewrite bool_decide_eq_false_2 by done.
      * by destruct (Hopen Hst) as [-> _].
Qed.

Lemma runUpdates_balanced (ops : list StatusUpdate) w :
  ledgerBalanced w → ledgerBalanced (runUpdates clock ops w).
Proof.
  revert w. induction ops as [|op ops IH]; intros w Hw; [done|].
  apply IH. destruct op as [tid st|u]; simpl.
  - by apply updateTransactionStatus_balanced.
  - by apply updateTransaction_balanced.
Qed.

End LedgerHistory.

Section LedgerHistoryClaim.

Variable clock : nat → Timestamp.

Implicit Types (w : World) (t u old : Transaction) (tid : string)
  (st : TransactionStatus).

(** C2.  In every world reached from a balanced one (the empty store is
    balanced) by creating transactions under fresh ids ([addTransaction]) and
    by any sequence of status updates ([updateTransactionStatus],
    [updateTransaction]), the stock effect of a transaction has been applied
    once more than it has been reversed exactly when the transaction is
    completed, and as often as reversed otherwise.  A single update applies
    the effect (for an [out] transaction: the clamped decrement of its items)
    only when the old status is not [completed] and the new one is, reverses
    it only when the old status is [completed] and the new one is not, and
    leaves the ledger and every product untouched in the remaining cases, in
    particular between two statuses other than [completed]. *)
Theorem stock_effect_once_per_completion w :
  (ledgerBalanced w → ∀ ops, ledgerBalanced (runUpdates clock ops w))
  ∧ (ledgerBalanced w →
     ∀ t, find (λ t', transactionId t' = transactionId t) (transactions w)
          = None →
          ledgerBalanced (after (addTransaction clock t) w))
  ∧ (∀ u i old,
       list_find (λ t, transactionId t = transactionId u) (transactions w)
       = Some (i, old) →
       ledgerStep old u w (after (updateTransaction clock u) w))
  ∧ (∀ tid st i old,
       list_find (λ t, transactionId t = tid) (transactions w)
       = Some (i, old) →
       ledgerStep old (setStatus st (clock (hostReads w)) old) w
                  (after (updateTransactionStatus clock tid st) w)).
Proof.
  split_and!.
  - intros Hw ops. by apply runUpdates_balanced.
  - intros Hw t Hfresh. by apply addTransaction_balanced.
  - intros u i old Hfind.
    destruct (updateTransaction_found clock u w i old Hfind)
      as (_ & _ & Hinto & Hout & Hsame).
    unfold ledgerStep. split_and!; [done|done|..]; intros; apply Hsame; tauto.
  - intros tid st i old Hfind.
    destruct (updateTransactionStatus_found clock tid st w i old Hfind)
      as [Heq Hfind'].
    unfold after. rewrite Heq.
    destruct (updateTransaction_found clock _ _ i old Hfind')
      as (_ & _ & Hinto & Hout & Hsame).
    unfold ledgerStep. split_and!; [done|done|..]; intros; apply Hsame; tauto.
Qed.

End LedgerHistoryClaim.

Lemma stock_effect_once_per_completion_witness :
  ledgerBalanced
    (runUpdates Sample.clock Sample.lifecycle
       (after (addTransaction Sample.clock Sample.pendingOrder) Sample.shop))
  ∧ ledgerStep Sample.pendingOrder
      (setStatus completed Sample.epoch Sample.pendingOrder)
      (after (addTransaction Sample.clock Sample.pendingOrder) Sample.shop)
      (after (updateTransactionStatus Sample.clock "T1" completed)
         (after (addTransaction Sample.clock Sample.pendingOrder)
                Sample.shop)).
Proof.
  assert (ledgerBalanced Sample.shop) as Hshop by (intros tid; reflexivity).
  split.
  - apply (proj1 (stock_effect_once_per_completion Sample.clock _)).
    apply (proj1 (proj2 (stock_effect_once_per_completion Sample.clock _)));
      [exact Hshop|reflexivity].
  - apply (proj2 (proj2 (proj2
             (stock_effect_once_per_completion Sample.clock
                (after (addTransaction Sample.clock Sample.pendingOrder)
                       Sample.shop))))
             "T1" completed 0%nat Sample.pendingOrder).
    reflexivity.
Defined.

(** The sample lifecycle, computed: one application is in force at the end,
    the two pieces are taken from the stock once, and the ledger ran three
    times in all (applied, reversed on reopening, applied again). *)
Example sample_lifecycle_runs :
  netApplied "T1"
    (ledger (runUpdates Sample.clock Sample.lifecycle
               (after (addTransaction Sample.clock Sample.pendingOrder)
                      Sample.shop))) = 1
  ∧ stock <$> products
                (runUpdates Sample.clock Sample.lifecycle
                   (after (addTransaction Sample.clock Sample.pendingOrder)
                          Sample.shop)) = [3]
  ∧ length (ledger (runUpdates Sample.clock Sample.lifecycle
                      (after (addTransaction Sample.clock Sample.pendingOrder)
                             Sample.shop))) = 3%nat.
Proof. by vm_compute. Qed.

Section StockClaims.

Variable clock : nat → Timestamp.

Implicit Types (w : World) (t : Transaction) (prods : list Product)
  (item : TransactionItem) (its : list TransactionItem).

Lemma Forall_view prods :
  Forall (λ e, 0 ≤ e.2) (view prods) ↔ Forall (λ p, 0 ≤ stock p) prods.
Proof. unfold view. by rewrite Forall_fmap. Qed.

Lemma view_ids prods : (view prods).*1 = productId_ <$> prods.
Proof. unfold view. by rewrite <- list_fmap_compose. Qed.

Lemma view_lookup prods i :
  view prods !! i = (λ p, (productId_ p, stock p)) <$> prods !! i.
Proof. unfold view. by rewrite list_lookup_fmap. Qed.

Lemma findIndex_productIds (x : string) prods :
  findIndex (λ p, productId_ p = x) prods
  = findIndex (λ y, y = x) (productId_ <$> prods).
Proof. by rewrite <- findIndex_view, findIndex_ids, view_ids. Qed.

(** C4.  On a store whose stocks are all non-negative, running either stock
    routine for a transaction whose quantities are all non-negative leaves
    every stock non-negative.  Where the decrement of an item would take the
    stock of its product below zero (in [updateStockFromTransaction] for an
    [out] transaction, in [reverseTransactionStockEffects] for an [in]
    transaction), the routine goes on and the stock is set to 0. *)
Theorem ledger_keeps_stock_nonnegative t w :
  Forall (λ p, 0 ≤ stock p) (products w) →
  Forall (λ item, 0 ≤ quantity item) (items t) →
  Forall (λ p, 0 ≤ stock p)
         (products (after (updateStockFromTransaction clock t) w))
  ∧ Forall (λ p, 0 ≤ stock p)
           (products (after (reverseTransactionStockEffects clock t) w))
  ∧ (∀ prods item i p w0,
       findIndex (λ p, productId_ p = productId item) prods = Some i →
       prods !! i = Some p →
       stock p - quantity item < 0 →
       stock <$> result (updateStockItem clock type_out prods item) w0 !! i
       = Some 0
       ∧ stock <$> result (reverseStockItem clock type_in prods item) w0 !! i
         = Some 0).
Proof.
  intros Hstock Hqty.
  destruct (decide (status t = completed)) as [Hst|Hst].
  - destruct (ledger_view clock t w Hst) as [(Hv & _) (Hv' & _)].
    split_and!.
    + apply Forall_view. rewrite Hv.
      by apply viewLoop_nonneg; [apply Forall_view|].
    + apply Forall_view. rewrite Hv'.
      by apply viewLoop_nonneg; [apply Forall_view|].
    + intros prods item i p w0 Hfind Hi Hneg.
      destruct (updateStockItem_view clock type_out prods item w0)
        as [Hup _].
      destruct (reverseStockItem_view clock type_in prods item w0)
        as [Hrev _].
      apply (f_equal (λ v, snd <$> v !! i)) in Hup, Hrev.
      rewrite view_lookup, <- option_fmap_compose in Hup, Hrev.
      rewrite viewStep_lookup, view_lookup, Hi, findIndex_view in Hup, Hrev.
      rewrite bool_decide_eq_true_2 in Hup, Hrev by done.
      simpl in Hup, Hrev.
      rewrite bool_decide_eq_true_2 in Hup, Hrev by (by apply sub_neg_iff).
      done.
  - destruct (ledger_guard clock t w Hst) as [Hup Hrev].
    unfold after. rewrite Hup, Hrev. simpl. split_and!; [done|done|].
    intros prods item i p w0 Hfind Hi Hneg.
    destruct (updateStockItem_view clock type_out prods item w0) as [Hup' _].
    destruct (reverseStockItem_view clock type_in prods item w0)
      as [Hrev' _].
    apply (f_equal (λ v, snd <$> v !! i)) in Hup', Hrev'.
    rewrite view_lookup, <- option_fmap_compose in Hup', Hrev'.
    rewrite viewStep_lookup, view_lookup, Hi, findIndex_view in Hup', Hrev'.
    rewrite bool_decide_eq_true_2 in Hup', Hrev' by done.
    simpl in Hup', Hrev'.
    rewrite bool_decide_eq_true_2 in Hup', Hrev' by (by apply sub_neg_iff).
    done.
Qed.

End StockClaims.

(** An order for five on a stock of three, completed: the stock is 0, not
    -2. *)
Lemma ledger_keeps_stock_nonnegative_witness :
  Forall (λ p, 0 ≤ stock p)
         (products
            (after (updateStockFromTransaction Sample.clock
                      (Sample.order type_out completed [mkItem "P1" 5 100]))
                   (Sample.world [Sample.product "P1" 3] [])))
  ∧ stock <$> result (updateStockItem Sample.clock type_out
                        [Sample.product "P1" 3] (mkItem "P1" 5 100))
                     (Sample.world [Sample.product "P1" 3] []) !! 0%nat
    = Some 0.
Proof.
  assert (Forall (λ p, 0 ≤ stock p)
            (products (Sample.world [Sample.product "P1" 3] []))) as Hstock
    by (repeat constructor; simpl; lia).
  assert (Forall (λ item, 0 ≤ quantity item)
            (items (Sample.order type_out completed [mkItem "P1" 5 100])))
    as Hqty by (repeat constructor; simpl; lia).
  destruct (ledger_keeps_stock_nonnegative Sample.clock _ _ Hstock Hqty)
    as (Hup & _ & Hfloor).
  split; [exact Hup|].
  apply (Hfloor [Sample.product "P1" 3] (mkItem "P1" 5 100) 0%nat
                (Sample.product "P1" 3));
    [reflexivity|reflexivity|simpl; lia].
Defined.

Section UnknownProducts.

Variable clock : nat → Timestamp.

Implicit Types (w : World) (t : Transaction) (prods : list Product)
  (item : TransactionItem) (its : list TransactionItem).

Lemma item_unknown ty prods item w :
  findIndex (λ p, productId_ p = productId item) prods = None →
  updateStockItem clock ty prods item w = (prods, w)
  ∧ reverseStockItem clock ty prods item w = (prods, w).
Proof.
  intros Hfind. unfold updateStockItem, reverseStockItem. by rewrite Hfind.
Qed.

Lemma item_ids ty prods item w :
  productId_ <$> result (updateStockItem clock ty prods item) w
  = productId_ <$> prods
  ∧ productId_ <$> result (reverseStockItem clock ty prods item) w
    = productId_ <$> prods.
Proof.
  destruct (updateStockItem_view clock ty prods item w) as [Hup _].
  destruct (reverseStockItem_view clock ty prods item w) as [Hrev _].
  apply (f_equal (fmap fst)) in Hup, Hrev.
  by rewrite viewStep_ids, !view_ids in Hup, Hrev.
Qed.

(** A loop whose body passes over unknown products and keeps the ids of the
    product list does what it does on the known items alone. *)
Lemma forEach_known (body : list Product → TransactionItem → M (list Product))
    its prods prods0 w :
  (∀ prods item w,
     findIndex (λ p, productId_ p = productId item) prods = None →
     body prods item w = (prods, w)) →
  (∀ prods item w,
     productId_ <$> result (body prods item) w = productId_ <$> prods) →
  productId_ <$> prods = productId_ <$> prods0 →
  forEach body its prods w = forEach body (knownItems prods0 its) prods w.
Proof.
  intros Hskip Hids. revert prods w.
  induction its as [|item its IH]; intros prods w Hsame; [done|].
  unfold knownItems in *. rewrite filter_cons.
  destruct (decide (is_Some _)) as [Hknown|Hunknown]; simpl.
  - unfold mbind, M_bind. specialize (Hids prods item w).
    unfold result in Hids. destruct (body prods item w) as [prods' w'].
    apply IH. simpl in Hids. by rewrite Hids.
  - unfold mbind, M_bind.
    rewrite Hskip; [by apply IH|].
    rewrite findIndex_productIds, Hsame, <- findIndex_productIds.
    by apply eq_None_not_Some.
Qed.

(** What a loop of the ledger computes depends on the world through the
    clock alone. *)
Lemma forEach_host (body : list Product → TransactionItem → M (list Product))
    its prods w w' :
  (∀ prods item w w',
     hostReads w = hostReads w' →
     result (body prods item) w = result (body prods item) w'
     ∧ hostReads (after (body prods item) w)
       = hostReads (after (body prods item) w')) →
  hostReads w = hostReads w' →
  result (forEach body its prods) w = result (forEach body its prods) w'.
Proof.
  intros Hbody. revert prods w w'.
  induction its as [|item its IH]; intros prods w w' Hhost; [done|].
  specialize (Hbody prods item w w' Hhost). revert Hbody.
  unfold result, after in *. simpl. unfold mbind, M_bind.
  destruct (body prods item w) as [prods1 w1].
  destruct (body prods item w') as [prods1' w1'].
  simpl. intros [-> Hhost1]. by apply IH.
Qed.

Lemma item_host ty prods item w w' :
  hostReads w = hostReads w' →
  (result (updateStockItem clock ty prods item) w
   = result (updateStockItem clock ty prods item) w'
   ∧ hostReads (after (updateStockItem clock ty prods item) w)
     = hostReads (after (updateStockItem clock ty prods item) w'))
  ∧ (result (reverseStockItem clock ty prods item) w
     = result (reverseStockItem clock ty prods item) w'
     ∧ hostReads (after (reverseStockItem clock ty prods item) w)
       = hostReads (after (reverseStockItem clock ty prods item) w')).
Proof.
  intros Hhost. unfold updateStockItem, reverseStockItem.
  destruct (findIndex _ prods) as [i|]; run; by rewrite Hhost.
Qed.

Lemma ledger_products t w :
  status t = completed →
  products (after (updateStockFromTransaction clock t) w)
  = result (forEach (updateStockItem clock (type t)) (items t) (products w)) w
  ∧ products (after (reverseTransactionStockEffects clock t) w)
    = result (forEach (reverseStockItem clock (type t)) (items t)
                      (products w)) w.
Proof.
  intros Hst. split.
  - rewrite (forEach_host (updateStockItem clock (type t)) (items t)
               (products w) w
               (mkWorld (storage w) (hostReads w) (ledger w ++ [Applied t])));
      [|intros; by apply item_host|done].
    unfold updateStockFromTransaction.
    rewrite bool_decide_eq_false_2 by auto. run.
    by destruct (forEach _ _ _ _).
  - rewrite (forEach_host (reverseStockItem clock (type t)) (items t)
               (products w) w
               (mkWorld (storage w) (hostReads w)
                        (ledger w ++ [Reversed t])));
      [|intros; by apply item_host|done].
    unfold reverseTransactionStockEffects.
    rewrite bool_decide_eq_false_2 by auto. run.
    by destruct (forEach _ _ _ _).
Qed.

(** What a run of either routine for a completed transaction leaves at one
    index of the product list. *)
Lemma ledger_lookup t w j p :
  status t = completed →
  products w !! j = Some p →
  (∃ p', products (after (updateStockFromTransaction clock t) w) !! j
         = Some p'
         ∧ productId_ p' = productId_ p
         ∧ stock p'
           = foldl (changeStock (applyChange (type t))) (stock p)
                   (quantitiesAt (view (products w)) j (items t)))
  ∧ (∃ p', products (after (reverseTransactionStockEffects clock t) w) !! j
           = Some p'
           ∧ productId_ p' = productId_ p
           ∧ stock p'
             = foldl (changeStock (reverseChange (type t))) (stock p)
                     (quantitiesAt (view (products w)) j (items t))).
Proof.
  intros Hst Hp.
  destruct (ledger_view clock t w Hst) as [(Hup & _) (Hrev & _)].
  apply (f_equal (.!! j)) in Hup, Hrev.
  rewrite viewLoop_lookup, !view_lookup, Hp in Hup, Hrev.
  simpl in Hup, Hrev. split.
  - destruct (products (after (updateStockFromTransaction clock t) w) !! j)
      as [p'|]; [|done].
    injection Hup as Hid Hs. by exists p'.
  - destruct (products (after (reverseTransactionStockEffects clock t) w)
                !! j) as [p'|]; [|done].
    injection Hrev as Hid Hs. by exists p'.
Qed.

(** C10.  An item whose [productId] is the id of no stored product is passed
    over by both stock routines: the loop body returns the product list and
    the world as they are.  The other items take effect: a run for a
    completed transaction takes the stock of every product through the
    quantities, in item order, of the items whose [productId] resolves to
    it, by [+=] or by [-=] and the reset to 0, and changes the products as
    it would for the transaction restricted to its known items.
    [canProcessTransaction] is stricter for an [out] transaction: with such
    an item it returns [false].  For an [in] transaction it looks at no item
    and returns [true]. *)
Theorem unknown_product_is_skipped t w :
  (∀ ty prods item w0,
     findIndex (λ p, productId_ p = productId item) prods = None →
     updateStockItem clock ty prods item w0 = (prods, w0)
     ∧ reverseStockItem clock ty prods item w0 = (prods, w0))
  ∧ (status t = completed →
     ∀ j p, products w !! j = Some p →
       (∃ p', products (after (updateStockFromTransaction clock t) w) !! j
              = Some p'
              ∧ productId_ p' = productId_ p
              ∧ stock p'
                = foldl (changeStock (applyChange (type t))) (stock p)
                        (quantitiesAt (view (products w)) j (items t)))
       ∧ (∃ p', products (after (reverseTransactionStockEffects clock t) w)
                  !! j = Some p'
                ∧ productId_ p' = productId_ p
                ∧ stock p'
                  = foldl (changeStock (reverseChange (type t))) (stock p)
                          (quantitiesAt (view (products w)) j (items t))))
  ∧ products (after (updateStockFromTransaction clock t) w)
    = products (after (updateStockFromTransaction clock
                         (setItems (knownItems (products w) (items t)) t)) w)
  ∧ products (after (reverseTransactionStockEffects clock t) w)
    = products (after (reverseTransactionStockEffects clock
                         (setItems (knownItems (products w) (items t)) t)) w)
  ∧ (type t = type_out →
     Exists (λ item,
               findIndex (λ p, productId_ p = productId item) (products w)
               = None) (items t) →
     result (canProcessTransaction t) w = false)
  ∧ (type t = type_in → result (canProcessTransaction t) w = true).
Proof.
  split_and!.
  - intros ty prods item w0. apply item_unknown.
  - intros Hst j p Hp. by apply ledger_lookup.
  - destruct (decide (status t = completed)) as [Hst|Hst].
    + rewrite (proj1 (ledger_products t w Hst)).
      rewrite (proj1 (ledger_products (setItems _ t) w Hst)).
      unfold result. cbn [setItems items type].
      rewrite (forEach_known _ (items t) (products w) (products w));
        [done|intros; by apply item_unknown|intros; apply item_ids|done].
    + unfold after.
      rewrite (proj1 (ledger_guard clock t w Hst)).
      by rewrite (proj1 (ledger_guard clock (setItems _ t) w Hst)).
  - destruct (decide (status t = completed)) as [Hst|Hst].
    + rewrite (proj2 (ledger_products t w Hst)).
      rewrite (proj2 (ledger_products (setItems _ t) w Hst)).
      unfold result. cbn [setItems items type].
      rewrite (forEach_known _ (items t) (products w) (products w));
        [done|intros; by apply item_unknown|intros; apply item_ids|done].
    + unfold after.
      rewrite (proj2 (ledger_guard clock t w Hst)).
      by rewrite (proj2 (ledger_guard clock (setItems _ t) w Hst)).
  - intros Hout Hmissing. apply not_true_is_false. intros Hok.
    rewrite canProcessTransaction_result, Hout in Hok.
    apply sufficientStock_spec in Hok.
    apply Exists_exists in Hmissing as (item & Hin & Hfind).
    rewrite Forall_forall in Hok. destruct (Hok item Hin) as (p & Hp & _).
    unfold find, findIndex in *.
    destruct (list_find _ (products w)); simplify_eq/=.
  - intros Hin. by rewrite canProcessTransaction_result, Hin.
Qed.

End UnknownProducts.

(** An order for two pieces of [P1] and one piece of a product that is not
    in the store any more: the missing product is passed over, the two
    pieces of [P1] are taken from its stock of five, and
    [canProcessTransaction] refuses the order. *)
Lemma unknown_product_is_skipped_witness :
  updateStockItem Sample.clock type_out [Sample.product "P1" 5]
                  (mkItem "GONE" 1 100) Sample.shop
  = ([Sample.product "P1" 5], Sample.shop)
  ∧ (∃ p', products
             (after (updateStockFromTransaction Sample.clock
                       (Sample.order type_out completed
                          [mkItem "P1" 2 100; mkItem "GONE" 1 100]))
                    Sample.shop) !! 0%nat = Some p'
           ∧ productId_ p' = "P1"
           ∧ stock p' = 3)
  ∧ result (canProcessTransaction
              (Sample.order type_out completed
                 [mkItem "P1" 2 100; mkItem "GONE" 1 100]))
           Sample.shop = false
  ∧ result (canProcessTransaction
              (Sample.order type_in completed
                 [mkItem "P1" 2 100; mkItem "GONE" 1 100]))
           Sample.shop = true.
Proof.
  destruct (unknown_product_is_skipped Sample.clock
              (Sample.order type_out completed
                 [mkItem "P1" 2 100; mkItem "GONE" 1 100]) Sample.shop)
    as (Hskip & Hrest & _ & _ & Hcheck & _).
  destruct (unknown_product_is_skipped Sample.clock
              (Sample.order type_in completed
                 [mkItem "P1" 2 100; mkItem "GONE" 1 100]) Sample.shop)
    as (_ & _ & _ & _ & _ & Hinbound).
  split_and!.
  - apply Hskip. reflexivity.
  - apply (Hrest eq_refl 0%nat (Sample.product "P1" 5) eq_refl).
  - apply Hcheck; [reflexivity|]. right. left. reflexivity.
  - apply Hinbound. reflexivity.
Defined.

(** C10, as the claim states it, fails for an inbound transaction: its one
    item names a product that is not in the store, and
    [canProcessTransaction] returns [true]. *)
Lemma canProcessTransaction_accepts_inbound_without_product :
  findIndex (λ p, productId_ p = productId (mkItem "GONE" 1 100))
            (products Sample.shop) = None
  ∧ result (canProcessTransaction
              (Sample.order type_in completed [mkItem "GONE" 1 100]))
           Sample.shop = true.
Proof. by vm_compute. Qed.

(** The same order, completed: the two pieces of [P1] are taken. *)
Example partial_effect_on_unknown_product :
  stock <$> products
              (after (updateStockFromTransaction Sample.clock
                        (Sample.order type_out completed
                           [mkItem "P1" 2 100; mkItem "GONE" 1 100]))
                     Sample.shop) = [3].
Proof. by vm_compute. Qed.

Section Acceptance.

Implicit Types (prods : list Product) (item : TransactionItem)
  (its : list TransactionItem) (v : StockView).







End Acceptance.

Section RoundTrip.

Variable clock : nat → Timestamp.

Implicit Types (w : World) (t : Transaction) (prods : list Product)
  (item : TransactionItem) (its : list TransactionItem) (v : StockView).





End RoundTrip.



Section Creation.

Variable clock : nat → Timestamp.
Variable idgen : nat → string.

Implicit Types (w : World) (t : Transaction).



End Creation.



(** The same scenario, computed: the stock is 10 once the form is
    submitted. *)
Example inbound_ten_on_empty_stock :
  stock <$>
    products
      (after (TransactionForm.onSubmit Sample.clock Sample.idgen
                [Sample.product "P1" 0] 0 type_in
                (TransactionForm.mkFormValues None None None None None
                   [TransactionForm.mkFormItem "P1" 10]))
             (Sample.world [Sample.product "P1" 0] [])) = [10]
  ∧ status <$>
      transactions
        (after (TransactionForm.onSubmit Sample.clock Sample.idgen
                  [Sample.product "P1" 0] 0 type_in
                  (TransactionForm.mkFormValues None None None None None
                     [TransactionForm.mkFormItem "P1" 10]))
               (Sample.world [Sample.product "P1" 0] [])) = [completed].
Proof. by vm_compute. Qed.

(** The scenario of the specification, computed: on a stock of five an order
    for five is accepted and created pending (the stock stays at five); it
    is taken to [completed] through the lifecycle and the stock is 0; a
    second order for one piece is then refused. *)
Example order_exhausts_stock :
  result (canProcessTransaction
            (Sample.order type_out pending [mkItem "P1" 5 100])) Sample.shop
  = true
  ∧ stock <$>
      products
        (after (addTransaction Sample.clock
                  (Sample.order type_out pending [mkItem "P1" 5 100]))
               Sample.shop) = [5]
  ∧ stock <$>
      products
        (runUpdates Sample.clock
           [ViaUpdateTransactionStatus "T1" payment_confirmed;
            ViaUpdateTransactionStatus "T1" processing;
            ViaUpdateTransactionStatus "T1" ready_for_pickup;
            ViaUpdateTransactionStatus "T1" completed]
           (after (addTransaction Sample.clock
                     (Sample.order type_out pending [mkItem "P1" 5 100]))
                  Sample.shop)) = [0]
  ∧ result (canProcessTransaction
              (Sample.order type_out pending [mkItem "P1" 1 100]))
           (runUpdates Sample.clock
              [ViaUpdateTransactionStatus "T1" payment_confirmed;
               ViaUpdateTransactionStatus "T1" processing;
               ViaUpdateTransactionStatus "T1" ready_for_pickup;
               ViaUpdateTransactionStatus "T1" completed]
              (after (addTransaction Sample.clock
                        (Sample.order type_out pending [mkItem "P1" 5 100]))
                     Sample.shop)) = false.
Proof. by vm_compute. Qed.

(** * Further properties of the data layer *)

Ltac run_more :=
  unfold getUsers, setUsers, setCurrentUser, clearCurrentUser, withUsers,
    withCurrentUser, users, currentUser;
  run.

Section ListFacts.

Context {A : Type} (key : A → string).

Implicit Types (l : list A) (x : A) (k : string).

Lemma findIndex_Some_iff k l :
  is_Some (findIndex (λ y, key y = k) l) ↔ k ∈ key <$> l.
Proof.
  unfold findIndex. rewrite list_elem_of_fmap. split.
  - intros [i Hi]. destruct (list_find _ l) as [[j y]|] eqn:Hfind; [|done].
    apply list_find_Some in Hfind as (Hj & Hy & _).
    exists y. split; [done|]. by eapply list_elem_of_lookup_2.
  - intros (y & -> & Hy).
    destruct (list_find_elem_of (λ y', key y' = key y) l y Hy eq_refl)
      as [[j z] ->].
    by eexists.
Qed.

Lemma findIndex_None_iff k l :
  findIndex (λ y, key y = k) l = None ↔ k ∉ key <$> l.
Proof.
  rewrite <- findIndex_Some_iff, eq_None_not_Some. done.
Qed.

(** Writing [x] over the first element that has the key of [x]. *)
Lemma replace_first l x i :
  findIndex (λ y, key y = key x) l = Some i →
  key <$> <[i := x]> l = key <$> l
  ∧ find (λ y, key y = key x) (<[i := x]> l) = Some x
  ∧ ∀ j y, l !! j = Some y → key y ≠ key x → <[i := x]> l !! j = Some y.
Proof.
  unfold findIndex, find. intros Hfind.
  destruct (list_find _ l) as [[i' y]|] eqn:Hi; [|done].
  injection Hfind as ->. apply list_find_Some in Hi as (Hi & Hy & Hleast).
  split_and!.
  - rewrite list_fmap_insert, <- Hy. apply list_insert_id.
    by rewrite list_lookup_fmap, Hi.
  - rewrite (proj2 (list_find_Some _ _ i x)); [done|]. split_and!; [|done|].
    + apply list_lookup_insert_eq. by eapply lookup_lt_Some.
    + intros j z Hj Hlt. rewrite list_lookup_insert_ne in Hj by lia.
      by eapply Hleast.
  - intros j z Hj Hne. rewrite list_lookup_insert_ne; [done|].
    intros ->. rewrite Hi in Hj. by injection Hj as ->.
Qed.

Lemma filter_key_length k l :
  length (filter (λ y, key y ≠ k) l) ≠ length l ↔ k ∈ key <$> l.
Proof.
  rewrite filter_all_length, Forall_forall.
  destruct (decide (k ∈ key <$> l)) as [Hin|Hnin].
  - split; [done|]. intros _ Hall.
    apply list_elem_of_fmap in Hin as (y & -> & Hy). by apply (Hall y).
  - split; [|done]. intros Hnot. destruct Hnot. intros y Hy <-.
    apply Hnin, list_elem_of_fmap. by exists y.
Qed.

Lemma filter_key_absent k l : k ∉ key <$> filter (λ y, key y ≠ k) l.
Proof.
  rewrite list_elem_of_fmap. intros (y & -> & Hy).
  by apply list_elem_of_filter in Hy as [Hne _].
Qed.

Lemma filter_key_fresh k l :
  k ∉ key <$> l → filter (λ y, key y ≠ k) l = l.
Proof.
  intros Hfresh. induction l as [|y l IH]; [done|].
  rewrite fmap_cons, not_elem_of_cons in Hfresh. destruct Hfresh as [Hne ?].
  rewrite filter_cons_True by done. by rewrite IH.
Qed.

End ListFacts.

Section CatalogCrud.

Implicit Types (w : World) (cid pid : string).

Lemma deleteCategory_true_iff cid w :
  result (deleteCategory cid) w = true
  ↔ Forall (λ p, categoryId p ≠ cid) (products w)
    ∧ cid ∈ categoryId_ <$> categories w.
Proof.
  unfold deleteCategory. run.
  case_bool_decide as Hused; run.
  { split; [done|]. intros [Hfree _].
    apply Exists_exists in Hused as (p & Hp & Hc).
    rewrite Forall_forall in Hfree. by destruct (Hfree p Hp). }
  case_bool_decide as Hlen; run.
  - split; [|done]. intros _. split.
    + apply Forall_forall. intros p Hp Hc. apply Hused, Exists_exists.
      by exists p.
    + by apply (filter_key_length categoryId_).
  - split; [done|]. intros [_ Hin].
    by apply (filter_key_length categoryId_) in Hin.
Qed.

(** X1.  [deleteCategory] returns [true] exactly when no product references
    the category and a category with the id is stored; whenever it returns
    [false] the world is as before. *)
Theorem deleteCategory_succeeds_iff cid w :
  (result (deleteCategory cid) w = true
   ↔ Forall (λ p, categoryId p ≠ cid) (products w)
     ∧ cid ∈ categoryId_ <$> categories w)
  ∧ (result (deleteCategory cid) w = false → after (deleteCategory cid) w = w).
Proof.
  split; [apply deleteCategory_true_iff|].
  unfold deleteCategory. run.
  case_bool_decide as Hused; run; [done|].
  by case_bool_decide as Hlen; run.
Qed.

(** X2.  [updateProduct] returns [true] exactly when a product with the id of
    the new record is stored.  It then writes the record over the first such
    product: a search for the id finds the new record, the ids and their
    order are as before, and every product with another id is untouched.
    When it returns [false] the world is as before. *)
Theorem updateProduct_replaces_first (updatedProduct : Product) w :
  let w' := after (updateProduct updatedProduct) w in
  (result (updateProduct updatedProduct) w = true
   ↔ productId_ updatedProduct ∈ productId_ <$> products w)
  ∧ (result (updateProduct updatedProduct) w = false → w' = w)
  ∧ (result (updateProduct updatedProduct) w = true →
     productId_ <$> products w' = productId_ <$> products w
     ∧ find (λ p, productId_ p = productId_ updatedProduct) (products w')
       = Some updatedProduct
     ∧ (∀ j q, products w !! j = Some q →
               productId_ q ≠ productId_ updatedProduct →
               products w' !! j = Some q)).
Proof.
  intros w'. subst w'. unfold updateProduct. run.
  destruct (findIndex _ (products w)) as [i|] eqn:Hfind; run.
  - split_and!; [|done|intros _; by apply (replace_first productId_)].
    split; [intros _|done].
    apply (findIndex_Some_iff productId_). by rewrite Hfind.
  - split_and!; [|done|done]. split; [done|]. intros Hin.
    apply (findIndex_None_iff productId_) in Hfind. by destruct Hfind.
Qed.

(** X3.  [deleteProduct] returns [true] exactly when a product with the id is
    stored.  Afterwards the products are the former ones without those of
    that id, in their order; no stored product has the id; and deleting the
    id again returns [false] and changes nothing. *)
Theorem deleteProduct_removes_all pid w :
  let w' := after (deleteProduct pid) w in
  (result (deleteProduct pid) w = true ↔ pid ∈ productId_ <$> products w)
  ∧ (result (deleteProduct pid) w = false → w' = w)
  ∧ products w' = filter (λ p, productId_ p ≠ pid) (products w)
  ∧ (pid ∉ productId_ <$> products w')
  ∧ deleteProduct pid w' = (false, w').
Proof.
  intros w'.
  assert (products w' = filter (λ p, productId_ p ≠ pid) (products w))
    as Hprods by apply deleteProduct_products.
  assert (pid ∉ productId_ <$> products w') as Hgone
    by (rewrite Hprods; apply filter_key_absent).
  split_and!; [| |done|done|].
  - unfold deleteProduct. run. rewrite <- (filter_key_length productId_).
    by case_bool_decide.
  - subst w'. unfold deleteProduct. run. by case_bool_decide.
  - unfold deleteProduct. run.
    rewrite bool_decide_eq_false_2; [done|].
    by rewrite (filter_key_length productId_).
Qed.

(** X4.  A product added under an id that no stored product has, and then
    deleted by this id, leaves the products as they were. *)
Theorem addProduct_then_deleteProduct (product : Product) w :
  productId_ product ∉ productId_ <$> products w →
  let w1 := after (addProduct product) w in
  result (deleteProduct (productId_ product)) w1 = true
  ∧ products (after (deleteProduct (productId_ product)) w1) = products w.
Proof.
  intros Hfresh w1.
  assert (products w1 = products w ++ [product]) as Hadd by done.
  split.
  - unfold deleteProduct. run. rewrite bool_decide_eq_true_2; [done|].
    apply (filter_key_length productId_). fold (products w1).
    rewrite Hadd, fmap_app. apply elem_of_app. right. by left.
  - rewrite (proj1 (deleteProduct_products _ w1)), Hadd, filter_app.
    rewrite (filter_key_fresh productId_) by done.
    rewrite filter_cons_False by (intros Hne; by apply Hne).
    by rewrite app_nil_r.
Qed.

(** X5.  [updateCategory] returns [true] exactly when a category with the id
    of the new record is stored, and keeps the category ids in either case.
    Hence editing a category changes the outcome of no later
    [deleteCategory]. *)
Theorem updateCategory_keeps_ids (updatedCategory : ProductCategory) w :
  let w' := after (updateCategory updatedCategory) w in
  (result (updateCategory updatedCategory) w = true
   ↔ categoryId_ updatedCategory ∈ categoryId_ <$> categories w)
  ∧ categoryId_ <$> categories w' = categoryId_ <$> categories w
  ∧ products w' = products w
  ∧ (∀ cid, result (deleteCategory cid) w' = result (deleteCategory cid) w).
Proof.
  intros w'.
  assert (categoryId_ <$> categories w' = categoryId_ <$> categories w
          ∧ products w' = products w) as [Hids Hprods].
  { subst w'. unfold updateCategory. run.
    destruct (findIndex _ (categories w)) as [i|] eqn:Hfind; run; [|done].
    split; [|done]. by apply (replace_first categoryId_). }
  split_and!; [|done|done|].
  - unfold updateCategory. run.
    destruct (findIndex _ (categories w)) as [i|] eqn:Hfind; run.
    + split; [intros _|done].
      apply (findIndex_Some_iff categoryId_). by rewrite Hfind.
    + split; [done|]. intros Hin.
      apply (findIndex_None_iff categoryId_) in Hfind. by destruct Hfind.
  - intros cid.
    destruct (result (deleteCategory cid) w') eqn:Hnew.
    + apply deleteCategory_true_iff in Hnew.
      rewrite Hids, Hprods in Hnew. symmetry.
      by apply deleteCategory_true_iff.
    + symmetry. apply not_true_is_false. intros Hold.
      apply deleteCategory_true_iff in Hold.
      rewrite <- Hids, <- Hprods in Hold.
      apply deleteCategory_true_iff in Hold. congruence.
Qed.

End CatalogCrud.

Lemma deleteCategory_succeeds_iff_witness :
  result (deleteCategory "C1") (Sample.world [] []) = true
  ∧ after (deleteCategory "C9") Sample.shop = Sample.shop.
Proof.
  split.
  - apply (proj1 (deleteCategory_succeeds_iff "C1" (Sample.world [] []))).
    split; by_computation.
  - apply (proj2 (deleteCategory_succeeds_iff "C9" Sample.shop)).
    reflexivity.
Defined.

Lemma updateProduct_replaces_first_witness :
  find (λ p, productId_ p = "P1")
       (products (after (updateProduct (Sample.product "P1" 9)) Sample.shop))
  = Some (Sample.product "P1" 9)
  ∧ after (updateProduct (Sample.product "P7" 9)) Sample.shop = Sample.shop.
Proof.
  destruct (updateProduct_replaces_first (Sample.product "P1" 9) Sample.shop)
    as (_ & _ & Hfound).
  destruct (updateProduct_replaces_first (Sample.product "P7" 9) Sample.shop)
    as (_ & Hmissing & _).
  split.
  - apply Hfound. reflexivity.
  - apply Hmissing. reflexivity.
Defined.

Lemma deleteProduct_removes_all_witness :
  result (deleteProduct "P1") Sample.shop = true
  ∧ after (deleteProduct "P7") Sample.shop = Sample.shop.
Proof.
  split.
  - apply (proj1 (deleteProduct_removes_all "P1" Sample.shop)).
    by_computation.
  - apply (proj1 (proj2 (deleteProduct_removes_all "P7" Sample.shop))).
    reflexivity.
Defined.

Lemma addProduct_then_deleteProduct_witness :
  ("P2" ∉ productId_ <$> products Sample.shop)
  ∧ products (after (deleteProduct "P2")
                (after (addProduct (Sample.product "P2" 1)) Sample.shop))
    = products Sample.shop.
Proof.
  assert ("P2" ∉ productId_ <$> products Sample.shop) as Hfresh
    by by_computation.
  split; [exact Hfresh|].
  apply (addProduct_then_deleteProduct (Sample.product "P2" 1) Sample.shop
           Hfresh).
Defined.

Lemma updateCategory_keeps_ids_witness :
  result (updateCategory
            (mkCategory "C1" "Parts" None Sample.epoch Sample.epoch))
         Sample.shop = true.
Proof.
  apply (proj1 (updateCategory_keeps_ids
                  (mkCategory "C1" "Parts" None Sample.epoch Sample.epoch)
                  Sample.shop)).
  by_computation.
Defined.

Section Accounts.

Implicit Types (w : World) (u : User) (name pw uid : string).

Lemma login_result name pw w :
  login name pw w
  = match find (λ u, username u = name ∧ password u = pw) (users w) with
    | Some found =>
        (Some found,
         mkWorld (withCurrentUser (Some found) (storage w)) (hostReads w)
                 (ledger w))
    | None => (None, w)
    end.
Proof. unfold login. run_more. by destruct (find _ _). Qed.

(** X6.  [login] signs in nobody but a stored user whose name and password
    are the ones given: the user it returns is the first such user (it is
    stored at an index before which no user has this name with this
    password), and is then the current user, the users being as before.  It
    returns [null] exactly when no stored user has this name with this
    password; the world, and with it the session of whoever was signed in,
    is then as before. *)
Theorem login_checks_credentials name pw w :
  let w' := after (login name pw) w in
  (∀ u, result (login name pw) w = Some u →
        (∃ i, users w !! i = Some u
              ∧ ∀ j v, users w !! j = Some v → (j < i)%nat →
                       ¬ (username v = name ∧ password v = pw))
        ∧ username u = name ∧ password u = pw
        ∧ currentUser w' = Some u ∧ users w' = users w)
  ∧ (result (login name pw) w = None
     ↔ Forall (λ u, ¬ (username u = name ∧ password u = pw)) (users w))
  ∧ (result (login name pw) w = None → w' = w).
Proof.
  intros w'. subst w'. unfold result, after. rewrite login_result.
  unfold find.
  destruct (list_find _ (users w)) as [[i found]|] eqn:Hfind; simpl.
  - apply list_find_Some in Hfind as (Hi & [Hname Hpw] & Hfirst).
    split_and!; [|split; [done|]|done].
    + intros u [= <-]. split_and!; try done.
      by exists i.
    + intros Hall. rewrite Forall_forall in Hall.
      destruct (Hall found); [by eapply list_elem_of_lookup_2|done].
  - apply list_find_None in Hfind. split_and!; done.
Qed.

(** X7.  A user added under a name that no stored user has can sign in with
    the name and password of the record, and is the user returned. *)
Theorem addUser_then_login (newUser : User) w :
  username newUser ∉ username <$> users w →
  result (login (username newUser) (password newUser))
         (after (addUser newUser) w) = Some newUser.
Proof.
  intros Hfresh. unfold result. rewrite login_result.
  assert (users (after (addUser newUser) w) = users w ++ [newUser]) as ->
    by done.
  unfold find. rewrite list_find_app_r.
  - simpl. by rewrite decide_True.
  - apply list_find_None, Forall_forall. intros u Hu [Hname _].
    apply Hfresh, list_elem_of_fmap. by exists u.
Qed.

(** X8.  After [deleteUser], no login returns a user with the deleted id.
    The function writes the users only: a session of the deleted user
    stays. *)
Theorem deleteUser_bars_login uid w :
  let w' := after (deleteUser uid) w in
  (∀ name pw u, result (login name pw) w' = Some u → userId_ u ≠ uid)
  ∧ currentUser w' = currentUser w
  ∧ users w' = filter (λ u, userId_ u ≠ uid) (users w).
Proof.
  intros w'.
  assert (users w' = filter (λ u, userId_ u ≠ uid) (users w)
          ∧ currentUser w' = currentUser w) as [Hus Hcur].
  { subst w'. unfold deleteUser. run_more.
    case_bool_decide as Hlen; run_more; [done|]. split; [|done].
    symmetry. apply filter_all_length in Hlen.
    induction Hlen as [|x l Hx _ IH]; [done|].
    by rewrite filter_cons_True, IH. }
  split_and!; [|done|done].
  intros name pw u. unfold result. rewrite login_result, Hus. unfold find.
  destruct (list_find _ _) as [[i found]|] eqn:Hfind; simpl; [|done].
  intros [= <-]. apply list_find_Some in Hfind as (Hi & _ & _).
  apply list_elem_of_lookup_2, list_elem_of_filter in Hi. tauto.
Qed.

Lemma updateUser_users (updatedUser : User) w :
  let w' := after (updateUser updatedUser) w in
  currentUser w' = currentUser w
  ∧ products w' = products w
  ∧ ((userId_ updatedUser ∈ userId_ <$> users w →
      find (λ u, userId_ u = userId_ updatedUser) (users w')
      = Some updatedUser)
     ∧ (userId_ updatedUser ∉ userId_ <$> users w → w' = w)).
Proof.
  intros w'. subst w'. unfold updateUser. run_more.
  destruct (findIndex _ (USERS (storage w))) as [i|] eqn:Hfind; run_more.
  - split_and!; [done|done| |].
    + intros _. by apply (replace_first userId_).
    + intros Hnin. apply (findIndex_None_iff userId_) in Hnin.
      by rewrite Hnin in Hfind.
  - split_and!; [done|done| |done]. intros Hin.
    apply (findIndex_None_iff userId_) in Hfind. by destruct Hfind.
Qed.

(** X9.  When the signed-in user saves the own profile and the account is
    stored, the profile page leaves the stored account and the session copy
    equal to the saved record.  [updateUser] alone, which the user form of
    the administration calls, leaves the session copy as it was. *)
Theorem profile_submit_keeps_session_in_step (profileData signedIn : User) w :
  currentUser w = Some signedIn →
  userId_ signedIn = userId_ profileData →
  userId_ profileData ∈ userId_ <$> users w →
  let w' := after (UserProfile.handleSubmit profileData) w in
  currentUser w' = Some profileData
  ∧ find (λ u, userId_ u = userId_ profileData) (users w')
    = Some profileData
  ∧ currentUser (after (updateUser profileData) w) = Some signedIn.
Proof.
  intros Hcur Hid Hin w'.
  destruct (updateUser_users profileData w) as (Hcur1 & _ & Hfound & _).
  specialize (Hfound Hin). rewrite Hcur in Hcur1.
  subst w'. unfold UserProfile.handleSubmit. unfold after in *. run.
  destruct (updateUser profileData w) as [b w1]. simpl in *.
  unfold currentUser in Hcur1. rewrite Hcur1.
  rewrite bool_decide_eq_true_2 by done. by run_more.
Qed.

End Accounts.

Lemma login_checks_credentials_witness :
  (∃ i, users Sample.shop !! i = Some Sample.theUser
        ∧ ∀ j v, users Sample.shop !! j = Some v → (j < i)%nat →
                 ¬ (username v = "user" ∧ password v = "user123"))
  ∧ after (login "user" "wrong") Sample.shop = Sample.shop.
Proof.
  split.
  - apply (proj1 (login_checks_credentials "user" "user123" Sample.shop)
                 Sample.theUser).
    reflexivity.
  - apply (proj2 (proj2 (login_checks_credentials "user" "wrong"
                           Sample.shop))).
    reflexivity.
Defined.

Lemma addUser_then_login_witness :
  ("ani" ∉ username <$> users Sample.shop)
  ∧ result (login "ani" "s3cret")
      (after (addUser (mkUser "3" "ani" "s3cret" user vip "Ani" None None
                              None None Sample.epoch)) Sample.shop)
    = Some (mkUser "3" "ani" "s3cret" user vip "Ani" None None None None
                   Sample.epoch).
Proof.
  assert ("ani" ∉ username <$> users Sample.shop) as Hfresh
    by by_computation.
  split; [exact Hfresh|].
  apply (addUser_then_login
           (mkUser "3" "ani" "s3cret" user vip "Ani" None None None None
                   Sample.epoch) Sample.shop Hfresh).
Defined.

Lemma deleteUser_bars_login_witness :
  userId_ Sample.theAdmin ≠ "2".
Proof.
  apply (proj1 (deleteUser_bars_login "2" Sample.shop) "admin" "admin123").
  reflexivity.
Defined.

Lemma profile_submit_keeps_session_in_step_witness :
  currentUser
    (after (UserProfile.handleSubmit
              (mkUser "2" "user" "user123" user regular "Test User" None
                      (Some "0812") None None Sample.epoch)) Sample.shop)
  = Some (mkUser "2" "user" "user123" user regular "Test User" None
                 (Some "0812") None None Sample.epoch).
Proof.
  apply (profile_submit_keeps_session_in_step
           (mkUser "2" "user" "user123" user regular "Test User" None
                   (Some "0812") None None Sample.epoch)
           Sample.theUser Sample.shop);
    [reflexivity|reflexivity|by_computation].
Defined.

Section TransactionRecords.

Variable clock : nat → Timestamp.

Implicit Types (w : World) (t old : Transaction) (tid : string)
  (st : TransactionStatus).

(** X10.  [updateTransactionStatus] returns [false] exactly when no stored
    transaction has the id.  In either case every stored transaction keeps
    its id, type, items (with their prices), total, owner and creation date,
    in the same order, and a transaction with another id is untouched. *)
Theorem status_update_keeps_records tid st w :
  let w' := after (updateTransactionStatus clock tid st) w in
  (result (updateTransactionStatus clock tid st) w = false
   ↔ tid ∉ transactionId <$> transactions w)
  ∧ ((λ t, (transactionId t, type t, items t, totalAmount t, userId t,
            createdAt t)) <$> transactions w'
     = (λ t, (transactionId t, type t, items t, totalAmount t, userId t,
              createdAt t)) <$> transactions w)
  ∧ (∀ j t, transactions w !! j = Some t → transactionId t ≠ tid →
            transactions w' !! j = Some t).
Proof.
  intros w'. subst w'.
  destruct (list_find (λ t, transactionId t = tid) (transactions w))
    as [[i old]|] eqn:Hfind.
  - destruct (updateTransactionStatus_found clock tid st w i old Hfind)
      as [Heq Hfind'].
    unfold result, after. rewrite Heq.
    destruct (updateTransaction_found clock _ _ i old Hfind')
      as (Hres & Htxs & _).
    unfold result, after in Hres, Htxs. rewrite Hres, Htxs. simpl.
    apply list_find_Some in Hfind as (Hi & Hid & _).
    split_and!.
    + split; [done|]. intros Hnin. destruct Hnin.
      apply list_elem_of_fmap. exists old.
      split; [done|by eapply list_elem_of_lookup_2].
    + rewrite list_fmap_insert. apply list_insert_id.
      by rewrite list_lookup_fmap, Hi.
    + intros j t Hj Hne. rewrite list_lookup_insert_ne; [done|].
      intros ->. rewrite Hi in Hj. injection Hj as ->. by destruct Hne.
  - unfold result, after.
    rewrite (updateTransactionStatus_missing clock tid st w Hfind).
    simpl. split_and!; [|done|done].
    split; [intros _|done]. apply list_find_None in Hfind.
    rewrite Forall_forall in Hfind. intros (t & -> & Ht)%list_elem_of_fmap.
    by apply (Hfind t).
Qed.




End TransactionRecords.

Lemma status_update_keeps_records_witness :
  result (updateTransactionStatus Sample.clock "T9" completed)
         Sample.orderedShop = false.
Proof.
  apply (proj1 (status_update_keeps_records Sample.clock "T9" completed
                  Sample.orderedShop)).
  by_computation.
Defined.


Section Submission.

Variable clock : nat → Timestamp.
Variable idgen : nat → string.
Variable formProducts : list Product.
Variable deliveryCost : Z.

Implicit Types (w : World) (values : TransactionForm.FormValues).

(** X12.  Submitting an order ([out]) through the form never touches a stock
    and never runs the ledger.  Without a signed-in user nothing at all
    happens.  If [canProcessTransaction] refuses the items on the stored
    products, nothing is stored.  Otherwise one transaction is appended: it
    is pending, belongs to the signed-in user and carries the items of the
    form. *)
Theorem order_submission_keeps_stock values w :
  let submit :=
    TransactionForm.onSubmit clock idgen formProducts deliveryCost type_out
                             values in
  let w' := after submit w in
  products w' = products w
  ∧ ledger w' = ledger w
  ∧ (currentUser w = None →
     result submit w = TransactionForm.AuthenticationError ∧ w' = w)
  ∧ (is_Some (currentUser w) →
     sufficientStock (products w)
                     (TransactionForm.transactionItems formProducts values)
     = false →
     result submit w = TransactionForm.InsufficientStock
     ∧ storage w' = storage w)
  ∧ (∀ u, currentUser w = Some u →
          sufficientStock (products w)
            (TransactionForm.transactionItems formProducts values) = true →
          result submit w = TransactionForm.Submitted
          ∧ ∃ t, transactions w' = transactions w ++ [t]
                 ∧ status t = pending ∧ type t = type_out
                 ∧ userId t = userId_ u
                 ∧ items t
                   = TransactionForm.transactionItems formProducts values).
Proof.
  intros submit w'. subst submit w'. unfold TransactionForm.onSubmit.
  unfold canProcessTransaction, addTransaction, currentUser. run. simpl.
  destruct (CURRENT_USER (storage w)) as [u|] eqn:Hcur; run;
    [|split_and!; try done; by intros []].
  unfold products, transactions. simpl.
  destruct (sufficientStock (PRODUCTS (storage w)) _) eqn:Hok; simpl.
  - split_and!; try done. intros u' [= <-] _. split; [done|].
    by eexists.
  - split_and!; try done.
Qed.

End Submission.

Lemma order_submission_keeps_stock_witness :
  result (TransactionForm.onSubmit Sample.clock Sample.idgen
            [Sample.product "P1" 5] 15 type_out
            (TransactionForm.mkFormValues None None None None None
               [TransactionForm.mkFormItem "P1" 6])) Sample.shop
  = TransactionForm.InsufficientStock
  ∧ result (TransactionForm.onSubmit Sample.clock Sample.idgen
              [Sample.product "P1" 5] 15 type_out
              (TransactionForm.mkFormValues None None None None None
                 [TransactionForm.mkFormItem "P1" 5])) Sample.shop
    = TransactionForm.Submitted.
Proof.
  split.
  - apply (order_submission_keeps_stock Sample.clock Sample.idgen
             [Sample.product "P1" 5] 15
             (TransactionForm.mkFormValues None None None None None
                [TransactionForm.mkFormItem "P1" 6]) Sample.shop);
      [by eexists|reflexivity].
  - apply (proj2 (proj2 (proj2 (proj2
             (order_submission_keeps_stock Sample.clock Sample.idgen
                [Sample.product "P1" 5] 15
                (TransactionForm.mkFormValues None None None None None
                   [TransactionForm.mkFormItem "P1" 5]) Sample.shop))))
             Sample.theUser);
      reflexivity.
Defined.

Section FormSteps.

Import TransactionFormSteps.

Implicit Types (prods : list Product) (values : TransactionForm.FormValues).

Lemma find_filter_first {A} (P Q : A → Prop) `{∀ x, Decision (P x)}
    `{∀ x, Decision (Q x)} (l : list A) (x : A) :
  find P l = Some x → Q x → find P (filter Q l) = Some x.
Proof.
  unfold find. intros Hfind HQ.
  induction l as [|y l IH]; [done|].
  simpl in Hfind. rewrite filter_cons.
  destruct (decide (P y)) as [HP|HP].
  - simpl in Hfind. injection Hfind as ->.
    rewrite decide_True by done. simpl. by rewrite decide_True.
  - assert (snd <$> list_find P l = Some x) as Hrest.
    { destruct (list_find P l) as [[i z]|]; simpl in *; [done|done]. }
    specialize (IH Hrest).
    destruct (decide (Q y)); [|done]. simpl. rewrite decide_False by done.
    destruct (list_find P (filter Q l)) as [[i z]|]; simpl in *; done.
Qed.

(** X14.  The check of the form's first step is no stricter than the check at
    submission: on the product list that the form loads for an order (the
    stored products with stock above 0), [goToDeliveryStep] lets pass every
    selection whose items [canProcessTransaction]'s loop accepts on the
    stored products.  For an inbound transaction the step makes no check. *)
Theorem step_check_passes_acceptable prods values :
  (sufficientStock prods
     (TransactionForm.transactionItems (loadedProducts type_out prods) values)
   = true →
   goToDeliveryStep type_out (loadedProducts type_out prods)
                    (TransactionForm.formItems values) = true)
  ∧ goToDeliveryStep type_in (loadedProducts type_in prods)
                     (TransactionForm.formItems values) = true.
Proof.
  split; [|done]. intros Hok. unfold goToDeliveryStep.
  rewrite bool_decide_eq_false_2; [done|].
  assert (stockErrors (loadedProducts type_out prods)
                      (TransactionForm.formItems values) = []) as ->;
    [|simpl; lia].
  apply sufficientStock_spec in Hok.
  unfold TransactionForm.transactionItems in Hok.
  rewrite Forall_fmap in Hok. unfold stockErrors.
  induction Hok as [|item its (p & Hp & Hle) _ IH]; [done|].
  rewrite filter_cons_False; [done|].
  simpl in Hp, Hle. unfold lacksStock, loadedProducts.
  destruct (decide (0 < stock p)) as [Hpos|Hzero].
  - rewrite (find_filter_first _ (λ p, 0 < stock p) prods p Hp Hpos).
    rewrite bool_decide_eq_false_2 by lia. done.
  - destruct (find _ (filter _ prods)) as [p2|] eqn:Hp2; [|done].
    unfold find in Hp2.
    destruct (list_find _ (filter _ prods)) as [[i z]|] eqn:Hz; [|done].
    injection Hp2 as ->.
    apply list_find_Some in Hz as (Hz & _ & _).
    apply list_elem_of_lookup_2, list_elem_of_filter in Hz as [Hz _].
    rewrite bool_decide_eq_false_2 by lia. done.
Qed.

End FormSteps.

Lemma step_check_passes_acceptable_witness :
  TransactionFormSteps.goToDeliveryStep type_out
    (TransactionFormSteps.loadedProducts type_out [Sample.product "P1" 5])
    (TransactionForm.formItems
       (TransactionForm.mkFormValues None None None None None
          [TransactionForm.mkFormItem "P1" 5])) = true.
Proof.
  apply (proj1 (step_check_passes_acceptable [Sample.product "P1" 5]
                  (TransactionForm.mkFormValues None None None None None
                     [TransactionForm.mkFormItem "P1" 5]))).
  reflexivity.
Defined.

(** The converse fails: a product that is sold out is not in the list that
    the form loads, so the step finds no product to compare with and lets
    the item pass; the submission refuses it. *)
Example step_check_passes_sold_out :
  TransactionFormSteps.goToDeliveryStep type_out
    (TransactionFormSteps.loadedProducts type_out [Sample.product "P1" 0])
    [TransactionForm.mkFormItem "P1" 1] = true
  ∧ result (TransactionForm.onSubmit Sample.clock Sample.idgen
              (TransactionFormSteps.loadedProducts type_out
                 [Sample.product "P1" 0]) 0 type_out
              (TransactionForm.mkFormValues None None None None None
                 [TransactionForm.mkFormItem "P1" 1]))
           (Sample.world [Sample.product "P1" 0] [])
    = TransactionForm.InsufficientStock.
Proof. by vm_compute. Qed.

Section DetailsActions.

Import TransactionDetails TransactionDetailsActions.

Variable clock : nat → Timestamp.

Implicit Types (w : World) (transaction : Transaction) (a : Action).

Lemma offered_open transaction (signedIn : option User) (namedPickup : bool)
    a :
  offered transaction signedIn namedPickup a = true →
  status transaction ≠ completed ∧ status transaction ≠ cancelled.
Proof.
  unfold offered, canConfirmPayment, canProcessTransaction, canMarkAsReady,
    canMarkAsShipping, canCompleteTransaction, canCancelTransaction.
  destruct a, (status transaction); simpl;
    rewrite ?andb_false_r, ?andb_false_l; done.
Qed.

(** X15.  The details view offers nothing on a transaction that is completed
    or cancelled, nothing to a visitor who is neither an administrator nor
    the owner, and never both the pickup and the shipping action; on an
    inbound transaction it can offer the cancellation only. *)
Theorem view_offers_nothing_beyond transaction (signedIn : option User)
    (namedPickup : bool) a :
  (status transaction = completed ∨ status transaction = cancelled →
   offered transaction signedIn namedPickup a = false)
  ∧ (isOwner transaction signedIn = false → isAdmin signedIn = false →
     offered transaction signedIn namedPickup a = false)
  ∧ (offered transaction signedIn namedPickup MarkAsReady = true →
     offered transaction signedIn namedPickup MarkAsShipping = false)
  ∧ (type transaction = type_in →
     offered transaction signedIn namedPickup a = true → a = Cancel).
Proof.
  unfold offered, canConfirmPayment, canProcessTransaction, canMarkAsReady,
    canMarkAsShipping, canCompleteTransaction, canCancelTransaction.
  split_and!.
  - intros [-> | ->]; destruct a; simpl;
      by rewrite ?andb_false_r, ?andb_false_l.
  - intros -> ->. destruct a; simpl; by rewrite ?andb_false_r.
  - destruct namedPickup; simpl; [by rewrite andb_false_r|].
    by rewrite andb_false_r.
  - intros ->. destruct a; simpl; done.
Qed.

(** X16.  Let the view show a stored transaction as it is stored.  Carrying
    out an action that the view offers succeeds and leaves the transaction
    in the status that the action aims at.  Every action but the completion
    leaves the products and the ledger untouched; the completion runs the
    ledger once, debiting the items of the order. *)
Theorem offered_action_effect transaction (signedIn : option User)
    (namedPickup : bool) (tracking : string) a i w :
  list_find (λ t, transactionId t = transactionId transaction)
            (transactions w) = Some (i, transaction) →
  offered transaction signedIn namedPickup a = true →
  let w' := after (perform clock transaction tracking a) w in
  result (perform clock transaction tracking a) w = true
  ∧ status <$> transactions w' !! i = Some (target a)
  ∧ (a ≠ Complete → products w' = products w ∧ ledger w' = ledger w)
  ∧ (a = Complete →
     view (products w')
     = viewLoop Debit (items transaction) (view (products w))
     ∧ ∃ t, ledger w' = ledger w ++ [Applied t]
            ∧ transactionId t = transactionId transaction).
Proof.
  intros Hfind Hoffered w'.
  pose proof Hfind as (Hi & _ & _)%list_find_Some.
  assert (i < length (transactions w))%nat as Hlt by by eapply lookup_lt_Some.
  assert (∀ u (w0 : World),
            transactionId u = transactionId transaction →
            transactions w0 = transactions w →
            products w0 = products w → ledger w0 = ledger w →
            let w1 := after (updateTransaction clock u) w0 in
            result (updateTransaction clock u) w0 = true
            ∧ status <$> transactions w1 !! i = Some (status u)
            ∧ (status transaction ≠ completed → status u ≠ completed →
               products w1 = products w ∧ ledger w1 = ledger w)
            ∧ (status transaction ≠ completed → status u = completed →
               view (products w1)
               = viewLoop (applyChange (type u)) (items u) (view (products w))
               ∧ ledger w1 = ledger w ++ [Applied u])) as Hupdate.
  { intros u w0 Hid Htxs Hprods Hledger w1.
    assert (list_find (λ t, transactionId t = transactionId u)
                      (transactions w0) = Some (i, transaction)) as Hfind0.
    { rewrite Htxs, <- Hfind. apply list_find_ext. intros t. by rewrite Hid. }
    destruct (updateTransaction_found clock u w0 i transaction Hfind0)
      as (Hres & Htxs1 & Hinto & _ & Hsame).
    fold w1 in Htxs1, Hinto, Hsame. split_and!; [done| | |].
    - rewrite Htxs1, Htxs, list_lookup_insert_eq by done. done.
    - intros Hold Hnew. rewrite <- Hprods, <- Hledger.
      destruct Hsame as [-> ->]; [tauto|done].
    - intros Hold Hnew. destruct (Hinto Hold Hnew) as [-> ->].
      by rewrite Hprods, Hledger. }
  assert (status transaction ≠ completed) as Hopen.
  { by apply (offered_open transaction signedIn namedPickup a). }
  destruct (match a with MarkAsShipping => true | _ => false end) eqn:Hship.
  - assert (a = MarkAsShipping) as -> by by destruct a.
    subst w'. unfold perform, shippingSubmit, result, after. run.
    set (u := mkTransaction _ _ _ _ _ _ _ _ _ _ _ _ _ _).
    set (w0 := mkWorld _ _ _).
    destruct (Hupdate u w0 eq_refl eq_refl eq_refl eq_refl)
      as (Hres & Hst & Hquiet & _).
    unfold result, after in Hres, Hst, Hquiet.
    split_and!; [done|done| |done]. intros _. by apply Hquiet.
  - assert (perform clock transaction tracking a
            = updateTransactionStatus clock (transactionId transaction)
                                      (target a)) as Hperform
      by by destruct a.
    destruct (updateTransactionStatus_found clock _ (target a) w i transaction
                Hfind) as [Heq _].
    subst w'. unfold result, after. rewrite Hperform, Heq.
    set (u := setStatus _ _ _). set (w0 := mkWorld _ _ _).
    destruct (Hupdate u w0 eq_refl eq_refl eq_refl eq_refl)
      as (Hres & Hst & Hquiet & Hdebit).
    unfold result, after in Hres, Hst, Hquiet, Hdebit.
    split_and!; [done|done| |].
    + intros Hne. apply Hquiet; [done|]. simpl. by destruct a.
    + intros ->. destruct (Hdebit Hopen eq_refl) as [Hv Hl].
      assert (type transaction = type_out) as Hout.
      { unfold offered, canCompleteTransaction in Hoffered.
        destruct (type transaction); [|done]. by simpl in Hoffered. }
      simpl in Hv. rewrite Hout in Hv. split; [done|]. by exists u.
Qed.

End DetailsActions.

Lemma view_offers_nothing_beyond_witness :
  TransactionDetails.offered
    (Sample.order type_out completed [mkItem "P1" 2 100])
    (Some Sample.theAdmin) true TransactionDetails.Cancel = false
  ∧ TransactionDetails.offered Sample.pendingOrder None true
      TransactionDetails.ConfirmPayment = false
  ∧ TransactionDetails.offered
      (Sample.order type_out processing [mkItem "P1" 2 100])
      (Some Sample.theAdmin) true TransactionDetails.MarkAsShipping = false
  ∧ TransactionDetails.Cancel = TransactionDetails.Cancel.
Proof.
  split_and!.
  - apply (proj1 (view_offers_nothing_beyond
                    (Sample.order type_out completed [mkItem "P1" 2 100])
                    (Some Sample.theAdmin) true TransactionDetails.Cancel)).
    by left.
  - apply (proj1 (proj2 (view_offers_nothing_beyond Sample.pendingOrder None
                           true TransactionDetails.ConfirmPayment)));
      reflexivity.
  - apply (proj1 (proj2 (proj2
             (view_offers_nothing_beyond
                (Sample.order type_out processing [mkItem "P1" 2 100])
                (Some Sample.theAdmin) true TransactionDetails.Cancel)))).
    reflexivity.
  - apply (proj2 (proj2 (proj2
             (view_offers_nothing_beyond
                (Sample.order type_in pending [mkItem "P1" 2 100])
                (Some Sample.theAdmin) true TransactionDetails.Cancel))));
      reflexivity.
Defined.

Lemma offered_action_effect_witness :
  result (TransactionDetailsActions.perform Sample.clock Sample.pendingOrder
            "JNE-0001" TransactionDetails.ConfirmPayment)
         Sample.orderedShop = true
  ∧ status <$>
      transactions
        (after (TransactionDetailsActions.perform Sample.clock
                  Sample.pendingOrder "JNE-0001"
                  TransactionDetails.ConfirmPayment) Sample.orderedShop)
      !! 0%nat
    = Some payment_confirmed.
Proof.
  destruct (offered_action_effect Sample.clock Sample.pendingOrder
              (Some Sample.theUser) false "JNE-0001"
              TransactionDetails.ConfirmPayment 0%nat Sample.orderedShop
              eq_refl eq_refl) as (Hres & Hst & _).
  by split.
Defined.

Section LowStock.

Import LowStockAlert.

Implicit Types (l prods : list Product) (x : Product).

Lemma insertByStock_Permutation x l : insertByStock x l ≡ₚ x :: l.
Proof.
  induction l as [|y l IH]; [done|]. simpl. case_bool_decide; [done|].
  by rewrite IH, Permutation_swap.
Qed.

Lemma sortByStock_Permutation l : sortByStock l ≡ₚ l.
Proof.
  induction l as [|x l IH]; [done|]. simpl.
  by rewrite insertByStock_Permutation, IH.
Qed.

Lemma insertByStock_sorted x l :
  StronglySorted (λ p q, stock p ≤ stock q) l →
  StronglySorted (λ p q, stock p ≤ stock q) (insertByStock x l).
Proof.
  induction 1 as [|y l Hsorted IH Hall]; simpl.
  - repeat constructor.
  - case_bool_decide as Hle.
    + constructor; [by constructor|]. constructor; [done|].
      eapply Forall_impl; [exact Hall|]. simpl. intros; lia.
    + constructor; [done|]. rewrite insertByStock_Permutation.
      constructor; [lia|done].
Qed.

Lemma sortByStock_sorted l :
  StronglySorted (λ p q, stock p ≤ stock q) (sortByStock l).
Proof.
  induction l as [|x l IH]; [constructor|]. by apply insertByStock_sorted.
Qed.

Lemma insertByStock_stable (k : Z) x l :
  StronglySorted (λ p q, stock p ≤ stock q) l →
  filter (λ p, stock p = k) (insertByStock x l)
  = filter (λ p, stock p = k) (x :: l).
Proof.
  induction 1 as [|y l Hsorted IH Hall]; [done|]. simpl.
  case_bool_decide as Hle; [done|].
  rewrite filter_cons, IH, !filter_cons.
  destruct (decide (stock y = k)), (decide (stock x = k)); try done. lia.
Qed.

(** The arrangement keeps the products of one stock level in the order in
    which the input has them. *)
Lemma sortByStock_stable (k : Z) l :
  filter (λ p, stock p = k) (sortByStock l) = filter (λ p, stock p = k) l.
Proof.
  induction l as [|x l IH]; [done|]. simpl.
  rewrite insertByStock_stable by apply sortByStock_sorted.
  by rewrite !filter_cons, IH.
Qed.

(** X17.  The low stock alert lists at most [limit] products, each a product
    of the list it is given with a stock of at most [threshold], in
    ascending order of stock; the products of low stock that it leaves out
    have no lower stock than any product it lists. *)
Theorem lowStockProducts_lowest_first prods (threshold : Z) (limit : nat) :
  let shown := lowStockProducts prods threshold limit in
  (length shown ≤ limit)%nat
  ∧ Forall (λ p, p ∈ prods ∧ stock p ≤ threshold) shown
  ∧ StronglySorted (λ p q, stock p ≤ stock q) shown
  ∧ ∃ rest, shown ++ rest ≡ₚ filter (λ p, stock p ≤ threshold) prods
            ∧ Forall (λ p, Forall (λ q, stock p ≤ stock q) rest) shown.
Proof.
  intros shown. subst shown. unfold lowStockProducts.
  set (low := filter (λ p, stock p ≤ threshold) prods).
  pose proof (sortByStock_sorted low) as Hsorted.
  pose proof (sortByStock_Permutation low) as Hperm.
  split_and!.
  - rewrite length_take. lia.
  - apply Forall_forall. intros p Hp.
    apply elem_of_take in Hp as (j & Hj & _).
    apply list_elem_of_lookup_2 in Hj. rewrite Hperm in Hj.
    apply list_elem_of_filter in Hj. tauto.
  - rewrite <- (take_drop limit (sortByStock low)) in Hsorted.
    by apply StronglySorted_app_1_l in Hsorted.
  - exists (drop limit (sortByStock low)). rewrite take_drop. split; [done|].
    rewrite <- (take_drop limit (sortByStock low)) in Hsorted.
    apply Forall_forall. intros p Hp. apply Forall_forall. intros q Hq.
    by apply (StronglySorted_app_1_elem_of (λ p q, stock p ≤ stock q)
                _ _ p q Hsorted).
Qed.

End LowStock.

Section ProductImport.

Variable clock : nat → Timestamp.

Implicit Types (w : World) (prods news : list Product) (np : Product).

Local Abbreviation kept :=
  (λ p : Product, (productId_ p, code p, vipPrice p, productCreatedAt p)).

Lemma findIndex_lt {A} (P : A → Prop) `{∀ x, Decision (P x)} (l : list A) i :
  findIndex P l = Some i → (i < length l)%nat.
Proof.
  unfold findIndex. destruct (list_find P l) as [[j x]|] eqn:Hfind; [|done].
  intros [= <-]. apply list_find_Some in Hfind as (Hj & _).
  by eapply lookup_lt_Some.
Qed.

(** The loop of the import, started on the stored products [prods] followed
    by what was pushed so far. *)
Lemma import_loop prods news (U1 A : list Product) w :
  length U1 = length prods →
  ∃ R1,
    result (forEach (importProduct clock prods) news (U1 ++ A)) w
    = R1 ++ A ++ filter (λ np, code np ∉ code <$> prods) news
    ∧ kept <$> R1 = kept <$> U1
    ∧ (∀ j, Forall (λ np, findIndex (λ p, code p = code np) prods ≠ Some j)
                   news →
            R1 !! j = U1 !! j)
    ∧ (∀ l1 np l2 j,
         news = l1 ++ np :: l2 →
         findIndex (λ p, code p = code np) prods = Some j →
         Forall (λ np', findIndex (λ p, code p = code np') prods ≠ Some j)
                l2 →
         ∃ p, R1 !! j = Some p
              ∧ productName p = productName np
              ∧ categoryId p = categoryId np
              ∧ price p = price np ∧ stock p = stock np).
Proof.
  revert U1 A w. induction news as [|np news IH]; intros U1 A w Hlen.
  - exists U1. rewrite app_nil_r. split_and!; [done..|].
    intros [|??] ? ? ? Heq; discriminate Heq.
  - unfold result. simpl. unfold mbind, M_bind.
    destruct (importProduct clock prods (U1 ++ A) np w) as [s' w'] eqn:Hbody.
    unfold importProduct in Hbody.
    destruct (findIndex (λ p, code p = code np) prods) as [i|] eqn:Hfind.
    + unfold mbind, mret, M_bind, M_ret, newDate, hostRead in Hbody.
      simpl in Hbody. injection Hbody as <- <-.
      pose proof (findIndex_lt _ _ _ Hfind) as Hi.
      rewrite alter_app_l by lia.
      set (w1 := mkWorld _ _ _).
      set (U1' := alter (overwriteWith np (clock (hostReads w))) i U1).
      destruct (IH U1' A w1) as (R1 & Hres & Hkept & Hquiet & Hlast).
      { subst U1'. by rewrite length_alter. }
      unfold result in Hres. exists R1.
      assert (kept <$> U1' = kept <$> U1) as HkeptU.
      { subst U1'. rewrite (list_fmap_alter kept _ id).
        - by rewrite list_alter_id.
        - by apply Forall_forall. }
      split_and!.
      * rewrite Hres, filter_cons_False; [done|].
        intros Hfresh. apply Hfresh.
        apply (findIndex_Some_iff code). by rewrite Hfind.
      * by rewrite Hkept.
      * intros j Hall. apply Forall_cons in Hall as [Hne Hall].
        rewrite Hquiet by done. subst U1'.
        apply list_lookup_alter_ne. congruence.
      * intros l1 np' l2 j Heq Hj Hall. destruct l1 as [|x l1].
        -- simpl in Heq. injection Heq as <- <-.
           rewrite Hj in Hfind. injection Hfind as ->.
           rewrite Hquiet by done. subst U1'.
           rewrite list_lookup_alter_eq.
           destruct (lookup_lt_is_Some_2 U1 i) as [p Hp]; [lia|].
           rewrite Hp. simpl. by eexists.
        -- simpl in Heq. injection Heq as <- ->. by eapply Hlast.
    + unfold mret, M_ret in Hbody. injection Hbody as <- <-.
      rewrite <- (assoc_L (++)).
      destruct (IH U1 (A ++ [np]) w) as (R1 & Hres & Hkept & Hquiet & Hlast);
        [done|].
      unfold result in Hres. exists R1. split_and!.
      * rewrite Hres, filter_cons_True, <- (assoc_L (++)); [done|].
        apply (findIndex_None_iff code). done.
      * done.
      * intros j Hall. apply Forall_cons in Hall as [_ Hall]. by apply Hquiet.
      * intros l1 np' l2 j Heq Hj Hall. destruct l1 as [|x l1].
        -- simpl in Heq. injection Heq as <- <-. congruence.
        -- simpl in Heq. injection Heq as <- ->. by eapply Hlast.
Qed.

(** X18.  [addMultipleProducts] leaves the stored products in place, with
    their ids, codes, VIP prices and creation dates, and appends, in their
    order, the new products whose code no stored product has (a new code
    that comes twice is appended twice).  A stored product that is not the
    first with the code of a new product is untouched; the first product
    with the code of a new product takes the name, category, price and
    stock of the last new product with that code. *)
Theorem addMultipleProducts_merges news w :
  let w' := after (addMultipleProducts clock news) w in
  ∃ updated,
    products w'
    = updated ++ filter (λ np, code np ∉ code <$> products w) news
    ∧ kept <$> updated = kept <$> products w
    ∧ (∀ j, Forall (λ np,
                      findIndex (λ p, code p = code np) (products w) ≠ Some j)
                   news →
            updated !! j = products w !! j)
    ∧ (∀ l1 np l2 j,
         news = l1 ++ np :: l2 →
         findIndex (λ p, code p = code np) (products w) = Some j →
         Forall (λ np',
                   findIndex (λ p, code p = code np') (products w) ≠ Some j)
                l2 →
         ∃ p, updated !! j = Some p
              ∧ productName p = productName np
              ∧ categoryId p = categoryId np
              ∧ price p = price np ∧ stock p = stock np).
Proof.
  intros w'. subst w'. unfold addMultipleProducts. run.
  destruct (import_loop (products w) news (products w) [] w eq_refl)
    as (R1 & Hres & Hrest).
  rewrite app_nil_r in Hres. unfold result in Hres.
  destruct (forEach _ _ _ _) as [R w1]. simpl in *. subst R.
  by exists R1.
Qed.

End ProductImport.

Lemma addMultipleProducts_merges_witness :
  ∃ updated,
    products (after (addMultipleProducts Sample.clock
                       [Sample.product "N1" 7; Sample.product "N1" 8])
                    Sample.shop)
    = updated ++ filter (λ np, code np ∉ code <$> products Sample.shop)
                        [Sample.product "N1" 7; Sample.product "N1" 8]
    ∧ updated !! 0%nat = products Sample.shop !! 0%nat.
Proof.
  destruct (addMultipleProducts_merges Sample.clock
              [Sample.product "N1" 7; Sample.product "N1" 8] Sample.shop)
    as (updated & Hprods & _ & Hquiet & _).
  exists updated. split; [exact Hprods|].
  apply Hquiet. repeat constructor; discriminate.
Defined.

(** An import of a known code and of a new code given twice: the stock of
    the known product is replaced by the imported one, not added to, and
    the new code is stored twice. *)
Example import_replaces_stock :
  (λ p, (code p, stock p)) <$>
    products
      (after (addMultipleProducts Sample.clock
                [mkProduct "X" "code-P1" "LCD 15" "C1" 120 None 2
                           Sample.epoch Sample.epoch;
                 Sample.product "N1" 7; Sample.product "N1" 8])
             Sample.shop)
  = [("code-P1", 2); ("code-N1", 7); ("code-N1", 8)].
Proof. by vm_compute. Qed.

Section CsvFields.

Import Csv.

Implicit Types (s line rest cur : string) (fields : list string).

Local Arguments String.append !_ _ / : simpl nomatch.

Lemma append_assoc s1 s2 s3 : (s1 +:+ s2) +:+ s3 = s1 +:+ (s2 +:+ s3).
Proof. induction s1 as [|c s1 IH]; simpl; [done|]. by rewrite IH. Qed.

Lemma append_nil_r s : s +:+ EmptyString = s.
Proof. induction s as [|c s IH]; simpl; [done|]. by rewrite IH. Qed.

Lemma append_char s c rest :
  (s +:+ String c EmptyString) +:+ rest = s +:+ String c rest.
Proof. by rewrite append_assoc. Qed.

(** A stretch without a quote, and without a comma unless inside quotes, is
    added to the current field. *)
Lemma splitLoop_plain s rest inQuotes cur fields :
  occurs quote s = false →
  occurs comma s = false ∨ inQuotes = true →
  splitLoop (s +:+ rest) inQuotes cur fields
  = splitLoop rest inQuotes (cur +:+ s) fields.
Proof.
  revert cur. induction s as [|c s IH]; intros cur Hquote Hcomma; simpl.
  - by rewrite append_nil_r.
  - simpl in Hquote. apply orb_false_elim in Hquote as [Hc Hquote].
    rewrite Hc.
    assert (Ascii.eqb c comma && negb inQuotes = false) as ->.
    { destruct Hcomma as [Hcomma| ->]; [|by rewrite andb_false_r].
      simpl in Hcomma. apply orb_false_elim in Hcomma as [-> _]. done. }
    rewrite IH, append_char; [done..|].
    destruct Hcomma as [Hcomma|?]; [|by right].
    left. simpl in Hcomma. by apply orb_false_elim in Hcomma as [_ ?].
Qed.

(** Inside quotes, an escaped text is added to the current field without its
    quotes, and the loop is inside quotes again after it. *)
Lemma splitLoop_escaped s rest cur fields :
  splitLoop (escapeQuotes s +:+ rest) true cur fields
  = splitLoop rest true (cur +:+ withoutQuotes s) fields.
Proof.
  revert cur. induction s as [|c s IH]; intros cur; simpl.
  - by rewrite append_nil_r.
  - destruct (Ascii.eqb c quote) eqn:Hc; simpl.
    + apply IH.
    + by rewrite Hc, andb_false_r, IH, append_char.
Qed.

Lemma join_snoc fields s1 s2 :
  join (fields ++ [s1; s2]) = join (fields ++ [s1]) +:+ String comma s2.
Proof.
  induction fields as [|f fields IH]; [done|].
  change ((f :: fields) ++ ?l) with (f :: (fields ++ l)).
  destruct fields as [|g fields]; [simpl; by rewrite append_assoc|].
  change (join (f :: ?l)) with (f +:+ String comma (join l)) at 1.
  rewrite IH. simpl. by rewrite append_assoc.
Qed.

Lemma join_last fields s1 s2 :
  join (fields ++ [s1 +:+ s2]) = join (fields ++ [s1]) +:+ s2.
Proof.
  induction fields as [|f fields IH]; [done|].
  change ((f :: fields) ++ ?l) with (f :: (fields ++ l)).
  destruct fields as [|g fields]; [simpl; by rewrite append_assoc|].
  simpl in *. by rewrite IH, append_assoc.
Qed.

Lemma splitLoop_join line inQuotes cur fields :
  join ((splitLoop line inQuotes cur fields).1
          ++ [(splitLoop line inQuotes cur fields).2])
  = join (fields ++ [cur]) +:+ withoutQuotes line.
Proof.
  revert inQuotes cur fields.
  induction line as [|c line IH]; intros inQuotes cur fields; simpl.
  - by rewrite append_nil_r.
  - destruct (Ascii.eqb c quote) eqn:Hquote; [apply IH|].
    destruct (Ascii.eqb c comma && negb inQuotes) eqn:Hcomma.
    + apply andb_prop in Hcomma as [Hc _]. apply Ascii.eqb_eq in Hc as ->.
      rewrite IH, <- (assoc_L (++)). simpl.
      by rewrite join_snoc, append_assoc.
    + by rewrite IH, join_last, append_char.
Qed.

Lemma append_cons c s rest : String c s +:+ rest = String c (s +:+ rest).
Proof. done. Qed.

Lemma append_nil_l s : EmptyString +:+ s = s.
Proof. done. Qed.

Lemma splitLoop_quote rest inQuotes cur fields :
  splitLoop (String quote rest) inQuotes cur fields
  = splitLoop rest (negb inQuotes) cur fields.
Proof. done. Qed.

Lemma splitLoop_comma rest cur fields :
  splitLoop (String comma rest) false cur fields
  = splitLoop rest false EmptyString (fields ++ [cur]).
Proof. done. Qed.

(** X19.  The field loop of [parseProductsFromCSV] drops the quotes of a
    line and nothing else: the fields of a line, joined by commas, are the
    line without its quotes. *)
Theorem parsed_fields_lose_only_quotes line :
  join (splitFields line) = withoutQuotes line.
Proof.
  unfold splitFields.
  pose proof (splitLoop_join line false EmptyString []) as Hjoin.
  destruct (splitLoop line false EmptyString []) as [fields cur].
  exact Hjoin.
Qed.

(** The fields of a row written by [exportProductsToCSV]. *)
Lemma row_fields p theCategoryName priceText stockText :
  occurs quote (code p) = false →
  occurs comma (code p) = false →
  occurs quote theCategoryName = false →
  occurs quote priceText = false →
  occurs comma priceText = false →
  occurs quote stockText = false →
  occurs comma stockText = false →
  splitFields (row p theCategoryName priceText stockText)
  = [code p; withoutQuotes (productName p); theCategoryName;
     priceText; stockText].
Proof.
  intros Hcode Hcode' Hcat Hprice Hprice' Hstock Hstock'.
  unfold splitFields, row, join.
  rewrite splitLoop_plain, splitLoop_comma by auto.
  rewrite append_cons, splitLoop_quote, append_assoc, splitLoop_escaped.
  rewrite append_cons, splitLoop_quote, append_nil_l, splitLoop_comma.
  rewrite append_cons, splitLoop_quote, append_assoc.
  rewrite splitLoop_plain by auto.
  rewrite append_cons, splitLoop_quote, append_nil_l, splitLoop_comma.
  rewrite splitLoop_plain, splitLoop_comma by auto.
  rewrite <- (append_nil_r stockText) at 1.
  by rewrite splitLoop_plain by auto.
Qed.

Lemma occurs_app c s1 s2 : occurs c (s1 +:+ s2) = occurs c s1 || occurs c s2.
Proof.
  induction s1 as [|c1 s1 IH]; simpl; [done|]. by rewrite IH, orb_assoc.
Qed.

Lemma occurs_escapeQuotes c s :
  c ≠ quote → occurs c (escapeQuotes s) = occurs c s.
Proof.
  intros Hc. induction s as [|c1 s IH]; [done|]. cbn [escapeQuotes].
  destruct (Ascii.eqb c1 quote) eqn:Hquote; cbn [occurs]; rewrite IH; [|done].
  apply Ascii.eqb_eq in Hquote as ->.
  by rewrite (proj2 (Ascii.eqb_neq quote c)) by done.
Qed.

(** *** The lines of the file *)

Lemma linesFrom_plain s rest cur :
  occurs lineFeed s = false →
  linesFrom cur (s +:+ rest) = linesFrom (cur +:+ s) rest.
Proof.
  revert cur. induction s as [|c s IH]; intros cur Hs; simpl.
  - by rewrite append_nil_r.
  - simpl in Hs. apply orb_false_elim in Hs as [Hc Hs].
    by rewrite Hc, IH, append_char.
Qed.

Lemma linesFrom_line s rest :
  occurs lineFeed s = false →
  linesFrom EmptyString (s +:+ String lineFeed rest)
  = s :: linesFrom EmptyString rest.
Proof.
  intros Hs. by rewrite linesFrom_plain by done.
Qed.

Lemma csvContent_rows rows :
  csvContent rows
  = header +:+ String lineFeed
      (foldr (λ r rest, r +:+ String lineFeed rest) EmptyString rows).
Proof.
  unfold csvContent.
  assert (∀ content,
            foldl (λ content r,
                     content +:+ (r +:+ String lineFeed EmptyString))
                  content rows
            = content +:+ foldr (λ r rest, r +:+ String lineFeed rest)
                                EmptyString rows) as ->.
  { induction rows as [|r rows IH]; intros content; cbn [foldl foldr].
    - by rewrite append_nil_r.
    - by rewrite IH, !append_assoc. }
  by rewrite append_assoc.
Qed.

Lemma linesFrom_rows rows :
  Forall (λ r, occurs lineFeed r = false) rows →
  linesFrom EmptyString
    (foldr (λ r rest, r +:+ String lineFeed rest) EmptyString rows)
  = rows ++ [EmptyString].
Proof.
  induction 1 as [|r rows Hr _ IH]; [done|].
  cbn [foldr]. by rewrite linesFrom_line, IH.
Qed.

(** *** White space at the ends of a line *)

Lemma whiteSpace1_visible c : whiteSpace1 c = true → visible c = false.
Proof.
  unfold whiteSpace1, visible. intros Hc%bool_decide_eq_true.
  apply bool_decide_eq_false. rewrite !elem_of_cons, elem_of_nil in Hc. lia.
Qed.

Lemma whiteSpace2_visible c1 c2 :
  whiteSpace2 c1 c2 = true → visible c1 = false ∧ visible c2 = false.
Proof.
  unfold whiteSpace2, visible. intros Hc%bool_decide_eq_true.
  split; apply bool_decide_eq_false; lia.
Qed.

Lemma whiteSpace3_visible c1 c2 c3 :
  whiteSpace3 c1 c2 c3 = true →
  visible c1 = false ∧ visible c2 = false ∧ visible c3 = false.
Proof.
  unfold whiteSpace3, visible. intros Hc%bool_decide_eq_true.
  rewrite !elem_of_cons, elem_of_nil in Hc.
  split_and!; apply bool_decide_eq_false;
    destruct Hc as [Hc|Hc]; [|lia| |lia| |lia];
    repeat (destruct Hc as [[= ? ? ?]|Hc]; [lia|]); done.
Qed.

Lemma trimStart_visible s : startsVisible s = true → trimStart s = s.
Proof.
  destruct s as [|c1 r1]; [done|]. cbn [startsVisible]. intros Hc1.
  cbn [trimStart].
  destruct (whiteSpace1 c1) eqn:H1;
    [apply whiteSpace1_visible in H1; congruence|].
  destruct r1 as [|c2 r2]; [done|].
  destruct (whiteSpace2 c1 c2) eqn:H2;
    [apply whiteSpace2_visible in H2 as [? _]; congruence|].
  destruct r2 as [|c3 r3]; [done|].
  destruct (whiteSpace3 c1 c2 c3) eqn:H3;
    [apply whiteSpace3_visible in H3 as (? & _); congruence|done].
Qed.

Lemma endsVisible_rest c s :
  endsVisible (String c s) = true → visible c = false →
  endsVisible s = true.
Proof. destruct s; simpl; [congruence|done]. Qed.

(** What [trimStart] removes is white space: a visible end stays. *)
Lemma trimStart_endsVisible s :
  endsVisible s = true → endsVisible (trimStart s) = true.
Proof.
  assert (∀ n s, (String.length s ≤ n)%nat → endsVisible s = true →
                 endsVisible (trimStart s) = true) as Hall;
    [|by apply (Hall (String.length s))].
  clear s. induction n as [|n IH]; intros s Hlen Hs.
  { by destruct s; [|simpl in Hlen; lia]. }
  destruct s as [|c1 r1]; [done|]. cbn [trimStart]. simpl in Hlen.
  destruct (whiteSpace1 c1) eqn:H1.
  { apply whiteSpace1_visible in H1.
    apply IH; [lia|by eapply endsVisible_rest]. }
  destruct r1 as [|c2 r2]; [done|]. simpl in Hlen.
  destruct (whiteSpace2 c1 c2) eqn:H2.
  { apply whiteSpace2_visible in H2 as [Hv1 Hv2].
    apply IH; [lia|]. eapply endsVisible_rest; [|exact Hv2].
    by eapply endsVisible_rest. }
  destruct r2 as [|c3 r3]; [done|]. simpl in Hlen.
  destruct (whiteSpace3 c1 c2 c3) eqn:H3; [|done].
  apply whiteSpace3_visible in H3 as (Hv1 & Hv2 & Hv3).
  apply IH; [lia|]. eapply endsVisible_rest; [|exact Hv3].
  eapply endsVisible_rest; [|exact Hv2]. by eapply endsVisible_rest.
Qed.

Lemma trimEnd_endsVisible s : endsVisible s = true → trimEnd s = s.
Proof.
  induction s as [|c s IH]; [done|]. intros Hs. cbn [trimEnd].
  assert (allWhiteSpace (String c s) = false) as ->.
  { unfold allWhiteSpace. apply trimStart_endsVisible in Hs.
    by destruct (trimStart (String c s)). }
  destruct s as [|c' s]; [done|]. by rewrite IH.
Qed.

Lemma trim_visible s :
  startsVisible s = true → endsVisible s = true → trim s = s.
Proof.
  intros Hstart Hend. unfold trim.
  by rewrite trimStart_visible, trimEnd_endsVisible.
Qed.

Lemma startsVisible_app s rest :
  startsVisible s = true → startsVisible (s +:+ rest) = true.
Proof. by destruct s. Qed.

Lemma endsVisible_app s rest :
  endsVisible rest = true → endsVisible (s +:+ rest) = true.
Proof.
  intros Hrest. induction s as [|c s IH]; [done|].
  simpl. by destruct (s +:+ rest) eqn:Hs.
Qed.

Lemma endsVisible_cons c s :
  endsVisible s = true → endsVisible (String c s) = true.
Proof. by destruct s. Qed.

(** *** A row as a line *)

Lemma row_line p theCategoryName priceText stockText :
  plain (code p) = true →
  startsVisible (code p) = true →
  occurs lineFeed (productName p) = false →
  occurs quote theCategoryName = false →
  occurs lineFeed theCategoryName = false →
  plain priceText = true →
  plain stockText = true →
  endsVisible stockText = true →
  occurs lineFeed (row p theCategoryName priceText stockText) = false
  ∧ parseLine (row p theCategoryName priceText stockText)
    = Some [code p; withoutQuotes (productName p); theCategoryName;
            priceText; stockText].
Proof.
  unfold plain. intros Hcode Hstart Hname Hcat Hcat' Hprice Hstock Hend.
  repeat match goal with
         | H : _ && _ = true |- _ => apply andb_prop in H as [? ?]
         | H : negb _ = true |- _ => apply negb_true_iff in H
         end.
  split.
  - unfold row, join.
    repeat (rewrite occurs_app
            || (rewrite occurs_escapeQuotes by done)
            || (progress simpl)
            || match goal with
               | H : occurs _ _ = false |- _ => rewrite H
               end).
    done.
  - unfold parseLine.
    rewrite trim_visible.
    + rewrite row_fields by done.
      rewrite bool_decide_eq_false_2; [done|].
      unfold row, join. by destruct (code p).
    + unfold row, join. by apply startsVisible_app.
    + unfold row, join.
      by repeat (apply endsVisible_app || apply endsVisible_cons).
Qed.

End CsvFields.

Section CsvFile.

Import Csv.

(** X20.  The file that [exportProductsToCSV] writes, the header and a line
    for every row, is read back by [parseProductsFromCSV] (the split into
    lines, the trimming of a line, the loop over its characters and the
    test for five fields) as the fields that the rows were written from, in
    their order, every name without its quotes and with its commas.  This
    holds provided that no text holds a line feed, that the code and the
    two numbers hold no quote and no comma and the category name no quote,
    and that the code starts and the stock ends with a visible character of
    ASCII. *)
Theorem exported_file_is_read_back
    (entries : list (Product * string * string * string)) :
  Forall exportable entries →
  parsedFields (csvContent (rowOf <$> entries)) = fieldsOf <$> entries.
Proof.
  intros Hentries.
  assert (Forall (λ e, occurs lineFeed (rowOf e) = false
                       ∧ parseLine (rowOf e) = Some (fieldsOf e)) entries)
    as Hrows.
  { eapply Forall_impl; [exact Hentries|].
    intros [[[p theCategoryName] priceText] stockText].
    intros (? & ? & ? & ? & ? & ? & ? & ?). by apply row_line. }
  unfold parsedFields. rewrite csvContent_rows.
  rewrite (linesFrom_line header) by done.
  rewrite linesFrom_rows.
  - cbn [skipn]. rewrite drop_0, omap_app. cbn [omap]. simpl.
    rewrite app_nil_r.
    clear Hentries. induction Hrows as [|e entries [_ He] _ IH]; [done|].
    csimpl. by rewrite He, IH.
  - apply Forall_fmap. eapply Forall_impl; [exact Hrows|]. by intros e [? _].
Qed.

End CsvFile.

Lemma exported_file_is_read_back_witness :
  Csv.parsedFields
    (Csv.csvContent
       [Csv.row (mkProduct "P1" "code-P1"
                   (String Csv.quote "LCD" +:+ String Csv.quote ", 15 inch")
                   "C1" 100 None 5 Sample.epoch Sample.epoch)
                "Spare parts, screens" "100" "5"])
  = [["code-P1"; "LCD, 15 inch"; "Spare parts, screens"; "100"; "5"]].
Proof.
  apply (exported_file_is_read_back
           [(mkProduct "P1" "code-P1"
               (String Csv.quote "LCD" +:+ String Csv.quote ", 15 inch")
               "C1" 100 None 5 Sample.epoch Sample.epoch,
             "Spare parts, screens", "100", "5")]).
  repeat constructor.
Defined.

(** A code that starts with a space is read back without the space. *)
Example leading_space_is_trimmed :
  Csv.parsedFields
    (Csv.csvContent
       [Csv.row (mkProduct "P1" " A1" "LCD" "C1" 100 None 5 Sample.epoch
                           Sample.epoch) "Spareparts" "100" "5"])
  = [["A1"; "LCD"; "Spareparts"; "100"; "5"]].
Proof. by vm_compute. Qed.

(** A category name is written between quotes as it is: with one quote in
    it, the rest of the row is read inside quotes, and the row comes back
    with fewer than the five fields that the parser asks for. *)
Example category_quote_breaks_row :
  Csv.splitFields
    (Csv.row (Sample.product "P1" 5) (String Csv.quote "a,b") "100" "5")
  = ["code-P1"; "LCD"; "a"; "b,100,5"]
  ∧ Csv.parsedFields
      (Csv.csvContent
         [Csv.row (Sample.product "P1" 5) (String Csv.quote "a,b") "100"
                  "5"])
    = [].
Proof. by vm_compute. Qed.
